(** * Doctor listing page: filtering, sorting, suggestions, URL state

    A shallow embedding of [src/app/DoctorListing.tsx].  The React component
    keeps its state in [useState] cells and recomputes derived values in
    [useEffect] bodies; every effect body is a function of the cells it
    lists as dependencies, and is modelled here as that function.

    Conventions.
    - A JavaScript string is modelled by the [string] of its UTF-8 bytes.
      Substring search, the two regular expressions of the file
      ([/[^0-9.]/g] and [/^(\d+)/]) and URL percent-encoding agree on both
      representations for well-formed text.
    - [toLowerCase] is modelled for text made of ASCII characters and of
      the Greek letters Α to Ω and α to ω, with the rule of the final
      sigma; any other character is copied and taken to be uncased.  What
      is proved of the lowered text is proved for ASCII text.
    - A JavaScript number is a double.  The numbers of this file come from
      [parseInt] on decimal digits and from subtracting two of them: they
      are integers that a double holds, an infinity or [NaN], and
      [JsNumber.ofInteger] rounds an integer as the language does.
    - A value of type [string | null] is an [option string]; a field read
      through optional chaining ([feeString?.replace]) is an [option] too. *)

From Stdlib Require Import ZArith NArith QArith String Ascii List Lia.
From Stdlib Require Import DecimalString Sorted Permutation.
From stdpp Require Import base list.

Import ListNotations.
Local Open Scope string_scope.
Local Open Scope Z_scope.

(** ** JavaScript numbers *)

Module JsNumber.

(** The numbers the page computes: an integer held by a double, one of the
    two infinities, or [NaN]. *)
Inductive t :=
| NaN
| NegInf
| Finite (z : Z)
| PosInf.

(** A positive integer rounded to 53 significant bits, to the nearest and
    to the even one of two equally near. *)
Definition round_pos (n : Z) : Z :=
  let e := Z.log2 n in
  if e <? 53 then n
  else
    let unit := 2 ^ (e - 52) in
    let q := n / unit in
    let r := n mod unit in
    let q' :=
      if 2 * r <? unit then q
      else if unit <? 2 * r then q + 1
      else if Z.even q then q else q + 1 in
    q' * unit.

(** The Number value for an integer: the nearest double, and an infinity
    from 2^1024 on. *)
Definition ofInteger (n : Z) : t :=
  if n =? 0 then Finite 0
  else
    let m := round_pos (Z.abs n) in
    if 2 ^ 1024 <=? m then (if 0 <? n then PosInf else NegInf)
    else Finite (Z.sgn n * m).

(** [a - b] *)
Definition sub (a b : t) : t :=
  match a, b with
  | NaN, _ | _, NaN => NaN
  | Finite x, Finite y => ofInteger (x - y)
  | PosInf, PosInf | NegInf, NegInf => NaN
  | PosInf, _ | _, NegInf => PosInf
  | NegInf, _ | _, PosInf => NegInf
  end.

(** Truthiness of a number: every number but zero and [NaN]. *)
Definition truthy (a : t) : bool :=
  match a with
  | NaN => false
  | Finite z => negb (z =? 0)
  | _ => true
  end.

(** [a <= b], false when either is [NaN]. *)
Definition le (a b : t) : Prop :=
  match a, b with
  | NaN, _ | _, NaN => False
  | NegInf, _ | _, PosInf => True
  | PosInf, _ | _, NegInf => False
  | Finite x, Finite y => x <= y
  end.

(** [a === b] *)
Definition eqb (a b : t) : bool :=
  match a, b with
  | Finite x, Finite y => x =? y
  | PosInf, PosInf | NegInf, NegInf => true
  | _, _ => false
  end.

(** What [sort] reads off the answer of its comparator: [NaN] counts as
    zero, and of the other answers only the sign is used, which an
    infinity has too. *)
Definition sortVerdict (v : t) : Z :=
  match v with
  | NaN => 0
  | NegInf => -1
  | Finite z => z
  | PosInf => 1
  end.

End JsNumber.

(** ** JavaScript strings *)

Module JsString.

Definition code (c : ascii) : N := N_of_ascii c.

Definition is_digit (c : ascii) : bool :=
  ((48 <=? code c) && (code c <=? 57))%N.

Definition is_upper (c : ascii) : bool :=
  ((65 <=? code c) && (code c <=? 90))%N.

Definition is_lower (c : ascii) : bool :=
  ((97 <=? code c) && (code c <=? 122))%N.

Definition lower_char (c : ascii) : ascii :=
  if is_upper c then ascii_of_N (code c + 32) else c.

(** Every byte of [s] is an ASCII character. *)
Fixpoint is_ascii (s : string) : bool :=
  match s with
  | EmptyString => true
  | String c s' => (code c <? 128)%N && is_ascii s'
  end.

(** The letters A to Z lowered, character by character: what [toLowerCase]
    does to ASCII text. *)
Fixpoint lowerAscii (s : string) : string :=
  match s with
  | EmptyString => EmptyString
  | String c s' => String (lower_char c) (lowerAscii s')
  end.

(** The two bytes [c d] are a Greek capital letter, Α (CE 91) to Ω (CE A9). *)
Definition greek_capital (c d : ascii) : bool :=
  ((code c =? 206) && (145 <=? code d) && (code d <=? 169)
   && negb (code d =? 162))%N.

(** The two bytes [c d] are a Greek small letter, α (CE B1) to ω (CF 89). *)
Definition greek_small (c d : ascii) : bool :=
  ((code c =? 206) && (177 <=? code d) && (code d <=? 191)
   || (code c =? 207) && (128 <=? code d) && (code d <=? 137))%N.

(** Σ (CE A3) *)
Definition is_sigma (c d : ascii) : bool :=
  ((code c =? 206) && (code d =? 163))%N.

(** The small letter of a Greek capital other than Σ: 32 code points up. *)
Definition lower_greek (c d : ascii) : string :=
  if (code d <=? 159)%N
  then String c (String (ascii_of_N (code d + 32)) EmptyString)
  else String (ascii_of_N 207) (String (ascii_of_N (code d - 32)) EmptyString).

(** The ASCII characters that the rule of the final sigma skips. *)
Definition case_ignorable (c : ascii) : bool :=
  Ascii.eqb c "'" || Ascii.eqb c "." || Ascii.eqb c ":"
  || Ascii.eqb c "^" || Ascii.eqb c "`".

(** A cased letter follows, after ignorable characters at most. *)
Fixpoint cased_ahead (s : string) : bool :=
  match s with
  | EmptyString => false
  | String c r =>
      if case_ignorable c then cased_ahead r
      else is_upper c || is_lower c
           || match r with
              | String d _ => greek_capital c d || greek_small c d
              | EmptyString => false
              end
  end.

(** Lowering from a position; [before] tells that a cased letter stands
    before it, with ignorable characters at most in between.  A Σ that has
    a cased letter before it and none after it becomes ς, any other Σ
    becomes σ. *)
Fixpoint lower_from (before : bool) (s : string) : string :=
  match s with
  | EmptyString => EmptyString
  | String c r =>
      let one_byte :=
        if is_upper c || is_lower c
        then String (lower_char c) (lower_from true r)
        else if case_ignorable c then String c (lower_from before r)
        else String c (lower_from false r) in
      match r with
      | String d r' =>
          if greek_capital c d then
            ((if is_sigma c d
              then (if before && negb (cased_ahead r') then "ς" else "σ")
              else lower_greek c d)
             ++ lower_from true r')%string
          else if greek_small c d
          then String c (String d (lower_from true r'))
          else one_byte
      | EmptyString => one_byte
      end
  end.

(** [s.toLowerCase()] *)
Definition toLowerCase (s : string) : string := lower_from false s.

(** [s.startsWith(p)], the test made at each position by [includes]. *)
Fixpoint startsWith (s p : string) {struct p} : bool :=
  match p, s with
  | EmptyString, _ => true
  | String _ _, EmptyString => false
  | String a p', String b s' => Ascii.eqb a b && startsWith s' p'
  end.

(** [s.includes(sub)] *)
Fixpoint includes (s sub : string) : bool :=
  startsWith s sub
  || match s with
     | EmptyString => false
     | String _ s' => includes s' sub
     end.

(** Truthiness of a string: every string but the empty one. *)
Definition truthy (s : string) : bool :=
  match s with EmptyString => false | String _ _ => true end.

(** [s.replace(/[^0-9.]/g, "")]: every character that is neither a digit
    nor a period is deleted. *)
Fixpoint strip_non_numeric (s : string) : string :=
  match s with
  | EmptyString => EmptyString
  | String c s' =>
      if is_digit c || Ascii.eqb c "."
      then String c (strip_non_numeric s')
      else strip_non_numeric s'
  end.

(** The longest prefix of digits, the text matched by [/^(\d+)/] when it
    is not empty. *)
Fixpoint leading_digits (s : string) : string :=
  match s with
  | EmptyString => EmptyString
  | String c s' =>
      if is_digit c then String c (leading_digits s') else EmptyString
  end.

Definition digit_value (c : ascii) : Z := Z.of_N (code c) - 48.

(** Value of a string of decimal digits, read from the left. *)
Fixpoint digits_value (acc : Z) (s : string) : Z :=
  match s with
  | EmptyString => acc
  | String c s' => digits_value (10 * acc + digit_value c) s'
  end.

Definition is_space (c : ascii) : bool :=
  ((9 <=? code c) && (code c <=? 13))%N || Ascii.eqb c " ".

Fixpoint skip_spaces (s : string) : string :=
  match s with
  | String c s' => if is_space c then skip_spaces s' else s
  | EmptyString => EmptyString
  end.

(** [parseInt(s, 10)].  Leading white space is skipped (the ASCII white
    space only: both callers pass digits and periods), a sign is read,
    then the longest run of digits; without a digit the result is [NaN],
    and otherwise the Number value for the integer the digits write.  (For
    more than 20 digits the language lets an engine read the later ones as
    zeros; the engines round the integer itself, as is done here.) *)
Definition parseInt (s : string) : JsNumber.t :=
  let s1 := skip_spaces s in
  let '(sign, s2) :=
    match s1 with
    | String c r =>
        if Ascii.eqb c "-" then (-1, r)
        else if Ascii.eqb c "+" then (1, r)
        else (1, s1)
    | EmptyString => (1, s1)
    end in
  match leading_digits s2 with
  | EmptyString => JsNumber.NaN
  | ds => JsNumber.ofInteger (sign * digits_value 0 ds)
  end.

End JsString.

(** ** Data model *)

(** An entry of [specialities]: [{ name: string }]. *)
Module Speciality.
Record t := mk { name : string }.
End Speciality.

Module Address.
Record t := mk {
  locality : string;
  city : string;
  address_line1 : string;
  location : string;
  logo_url : option string
}.
End Address.

Module Clinic.
Record t := mk { name : string; address : Address.t }.
End Clinic.

(** [interface Doctor].  [fees] and [experience] are read through optional
    chaining by the two parsers, so a record may lack them. *)
Record Doctor := mkDoctor {
  id : string;
  name : string;
  name_initials : string;
  photo : string;
  doctor_introduction : string;
  specialities : list Speciality.t;
  fees : option string;
  experience : option string;
  languages : list string;
  clinic : Clinic.t;
  video_consult : bool;
  in_clinic : bool
}.

(** The four filter cells of the component. *)
Record FilterState := mkFilterState {
  searchTerm : string;
  selectedConsultation : option string;
  selectedSpecialties : list string;
  sortBy : option string
}.

(** ** The two parsers *)

(** [parseInt(feeString?.replace(/[^0-9.]/g, ""), 10) || 0].  A missing
    fee makes the argument [undefined], which [parseInt] reads as [NaN]. *)
Definition parseFee (feeString : option string) : JsNumber.t :=
  match feeString with
  | None => JsNumber.Finite 0
  | Some s =>
      let n := JsString.parseInt (JsString.strip_non_numeric s) in
      if JsNumber.truthy n then n else JsNumber.Finite 0
  end.

(** [expString?.match(/^(\d+)/)], then [parseInt(match[1], 10)] or [0]. *)
Definition parseExperience (expString : option string) : JsNumber.t :=
  match expString with
  | None => JsNumber.Finite 0
  | Some s =>
      match JsString.leading_digits s with
      | EmptyString => JsNumber.Finite 0
      | ds => JsString.parseInt ds
      end
  end.

(** ** [Array.prototype.sort] *)

(** ECMAScript requires [sort] to be stable, and for a consistent
    comparator the stable sorted arrangement of an array is unique.  It is
    computed here by insertion from the right: an element goes in front of
    the first later element that the comparator does not put before it. *)
Section ArraySort.
Context {A : Type}.
Variable compareFn : A -> A -> Z.

Fixpoint sort_insert (x : A) (l : list A) : list A :=
  match l with
  | [] => [x]
  | y :: l' =>
      if compareFn x y <=? 0 then x :: y :: l' else y :: sort_insert x l'
  end.

Fixpoint array_sort (l : list A) : list A :=
  match l with
  | [] => []
  | x :: l' => sort_insert x (array_sort l')
  end.
End ArraySort.

(** ** The derivation pipeline *)

(** The callback [(doctor) => doctor.name.toLowerCase().includes(lowerSearchTerm)],
    written out twice in the source: in the search filter and in the
    suggestions effect. *)
Definition nameIncludes (lowerSearchTerm : string) (doctor : Doctor) : bool :=
  JsString.includes (JsString.toLowerCase (name doctor)) lowerSearchTerm.

(** 1. Search filter. *)
Definition searchStage (searchTerm : string) (result : list Doctor)
  : list Doctor :=
  if JsString.truthy searchTerm then
    let lowerSearchTerm := JsString.toLowerCase searchTerm in
    List.filter (nameIncludes lowerSearchTerm) result
  else result.

(** The callback of the consultation filter. *)
Definition consultationMatch (selectedConsultation : string) (doctor : Doctor)
  : bool :=
  if String.eqb selectedConsultation "video" then video_consult doctor
  else if String.eqb selectedConsultation "clinic" then in_clinic doctor
  else false.

(** 2. Consultation type filter. *)
Definition consultationStage (selectedConsultation : option string)
    (result : list Doctor) : list Doctor :=
  match selectedConsultation with
  | Some mode =>
      if JsString.truthy mode
      then List.filter (consultationMatch mode) result
      else result
  | None => result
  end.

(** [selectedSpecialties.includes(x)] *)
Definition array_includes (l : list string) (x : string) : bool :=
  existsb (String.eqb x) l.

(** The callback of the specialty filter:
    [doctor.specialities.some(specObj => selectedSpecialties.includes(specObj.name))]. *)
Definition specialtyMatch (selectedSpecialties : list string) (doctor : Doctor)
  : bool :=
  existsb
    (fun specObj => array_includes selectedSpecialties (Speciality.name specObj))
    (specialities doctor).

(** 3. Specialties filter. *)
Definition specialtyStage (selectedSpecialties : list string)
    (result : list Doctor) : list Doctor :=
  if (0 <? length selectedSpecialties)%nat
  then List.filter (specialtyMatch selectedSpecialties) result
  else result.

(** The comparator handed to [sort]. *)
Definition sortCompare (sortBy : string) (a b : Doctor) : JsNumber.t :=
  if String.eqb sortBy "fees"
  then JsNumber.sub (parseFee (fees a)) (parseFee (fees b))
  else if String.eqb sortBy "experience"
       then JsNumber.sub (parseExperience (experience b))
              (parseExperience (experience a))
  else JsNumber.Finite 0.

(** 4. Sorting. *)
Definition sortStage (sortBy : option string) (result : list Doctor)
  : list Doctor :=
  match sortBy with
  | Some key =>
      if JsString.truthy key
      then array_sort
             (fun a b => JsNumber.sortVerdict (sortCompare key a b)) result
      else result
  | None => result
  end.

(** The three filter stages, in the order the effect applies them. *)
Definition filterStages (allDoctors : list Doctor) (st : FilterState)
  : list Doctor :=
  specialtyStage (selectedSpecialties st)
    (consultationStage (selectedConsultation st)
       (searchStage (searchTerm st) allDoctors)).

(** The value the effect stores with [setFilteredDoctors]. *)
Definition filteredDoctors (allDoctors : list Doctor) (st : FilterState)
  : list Doctor :=
  sortStage (sortBy st) (filterStages allDoctors st).

(** ** Autocomplete suggestions *)

(** [arr.slice(0, n)] *)
Definition slice0 {A} (n : nat) (l : list A) : list A := firstn n l.

(** The value the suggestions effect stores with [setSuggestions]. *)
Definition suggestions (searchTerm : string) (allDoctors : list Doctor)
  : list Doctor :=
  if (0 <? String.length searchTerm)%nat && (0 <? length allDoctors)%nat then
    let lowerSearchTerm := JsString.toLowerCase searchTerm in
    slice0 5 (List.filter (nameIncludes lowerSearchTerm) allDoctors)
  else [].

(** ** [URLSearchParams] *)

(** The list of name-value pairs of the URL standard, with its
    [application/x-www-form-urlencoded] serializer and parser. *)
Module URLSearchParams.
Import JsString.

Definition t := list (string * string).

(** [new URLSearchParams()] *)
Definition empty : t := [].

(** [params.append(name, value)] *)
Definition append (name value : string) (params : t) : t :=
  (params ++ [(name, value)])%list.

Definition remove (name : string) (params : t) : t :=
  List.filter (fun p => negb (String.eqb (fst p) name)) params.

(** [params.set(name, value)]: the first pair of that name takes the
    value and the later ones go; without such a pair, one is appended. *)
Fixpoint set (name value : string) (params : t) : t :=
  match params with
  | [] => [(name, value)]
  | p :: params' =>
      if String.eqb (fst p) name
      then (name, value) :: remove name params'
      else p :: set name value params'
  end.

(** [params.get(name)]; [None] stands for [null]. *)
Fixpoint get (name : string) (params : t) : option string :=
  match params with
  | [] => None
  | p :: params' =>
      if String.eqb (fst p) name then Some (snd p) else get name params'
  end.

(** [params.getAll(name)] *)
Definition getAll (name : string) (params : t) : list string :=
  map snd (List.filter (fun p => String.eqb (fst p) name) params).

(** *** Serializer *)

Definition hex_digit (n : N) : ascii :=
  if (n <? 10)%N then ascii_of_N (48 + n) else ascii_of_N (55 + n).

(** ["%"] and two upper-case hexadecimal digits. *)
Definition percent_encode (c : ascii) : string :=
  String "%"
    (String (hex_digit (code c / 16)) (String (hex_digit (code c mod 16)) "")).

(** The bytes outside the form-urlencoded percent-encode set: the ASCII
    alphanumerics and [*], [-], [.], [_]. *)
Definition unreserved (c : ascii) : bool :=
  is_digit c || is_upper c || is_lower c
  || Ascii.eqb c "*" || Ascii.eqb c "-" || Ascii.eqb c "." || Ascii.eqb c "_".

Definition encode_byte (c : ascii) : string :=
  if Ascii.eqb c " " then "+"
  else if unreserved c then String c ""
  else percent_encode c.

Fixpoint encode (s : string) : string :=
  match s with
  | EmptyString => EmptyString
  | String c s' => (encode_byte c ++ encode s')%string
  end.

Definition serialize_pair (p : string * string) : string :=
  (encode (fst p) ++ "=" ++ encode (snd p))%string.

(** [params.toString()] *)
Definition toString (params : t) : string :=
  String.concat "&" (map serialize_pair params).

(** *** Parser *)

(** The pieces of [s] between the occurrences of [sep]. *)
Fixpoint split (sep : ascii) (s : string) : list string :=
  match s with
  | EmptyString => [EmptyString]
  | String c s' =>
      if Ascii.eqb c sep then EmptyString :: split sep s'
      else match split sep s' with
           | w :: ws => String c w :: ws
           | [] => [String c EmptyString]
           end
  end.

(** Name and value of a piece: what stands before and after its first
    [=]; the value is empty when there is none. *)
Fixpoint cut_equals (s : string) : string * string :=
  match s with
  | EmptyString => (EmptyString, EmptyString)
  | String c s' =>
      if Ascii.eqb c "=" then (EmptyString, s')
      else let '(n, v) := cut_equals s' in (String c n, v)
  end.

Fixpoint plus_to_space (s : string) : string :=
  match s with
  | EmptyString => EmptyString
  | String c s' =>
      String (if Ascii.eqb c "+" then " "%char else c) (plus_to_space s')
  end.

Definition hex_value (c : ascii) : option N :=
  if is_digit c then Some (code c - 48)%N
  else if ((65 <=? code c) && (code c <=? 70))%N then Some (code c - 55)%N
  else if ((97 <=? code c) && (code c <=? 102))%N then Some (code c - 87)%N
  else None.

(** A ["%"] followed by two hexadecimal digits stands for one byte; any
    other byte stands for itself.  The parser then decodes the bytes as
    UTF-8, which leaves well-formed text, all that the serializer writes,
    as it is; bytes that are not UTF-8 are not modelled. *)
Fixpoint percent_decode (s : string) : string :=
  match s with
  | EmptyString => EmptyString
  | String c rest =>
      let plain := String c (percent_decode rest) in
      if Ascii.eqb c "%" then
        match rest with
        | String h1 (String h2 rest') =>
            match hex_value h1, hex_value h2 with
            | Some a, Some b =>
                String (ascii_of_N (16 * a + b)) (percent_decode rest')
            | _, _ => plain
            end
        | _ => plain
        end
      else plain
  end.

Definition parse_pair (bytes : string) : string * string :=
  let '(n, v) := cut_equals bytes in
  (percent_decode (plus_to_space n), percent_decode (plus_to_space v)).

(** The form-urlencoded parser: the empty pieces are skipped. *)
Definition parse (input : string) : t :=
  map parse_pair (List.filter truthy (split "&" input)).

(** [new URLSearchParams(init)] for a string: a leading [?] is dropped. *)
Definition ofString (init : string) : t :=
  match init with
  | String c r => if Ascii.eqb c "?" then parse r else parse init
  | EmptyString => parse init
  end.
End URLSearchParams.

(** ** State and URL *)

(** The parameters built by [updateUrlParams]. *)
Definition buildParams (st : FilterState) : URLSearchParams.t :=
  let params := URLSearchParams.empty in
  let params :=
    if JsString.truthy (searchTerm st)
    then URLSearchParams.set "search" (searchTerm st) params else params in
  let params :=
    match selectedConsultation st with
    | Some mode =>
        if JsString.truthy mode
        then URLSearchParams.set "consultation" mode params else params
    | None => params
    end in
  let params :=
    fold_left (fun acc spec => URLSearchParams.append "specialty" spec acc)
      (selectedSpecialties st) params in
  let params :=
    match sortBy st with
    | Some key =>
        if JsString.truthy key
        then URLSearchParams.set "sort" key params else params
    | None => params
    end in
  params.

(** The address [updateUrlParams] hands to [router.replace]. *)
Definition updateUrlParams (st : FilterState) : string :=
  ("?" ++ URLSearchParams.toString (buildParams st))%string.

(** [useSearchParams()] once the router shows the address [href], which
    here is always a [?] and a query: the parameters of that query.  The
    serializer writes no byte that the address parser would rewrite. *)
Definition useSearchParams (href : string) : URLSearchParams.t :=
  URLSearchParams.ofString href.

(** The effect that initializes the state from the URL. *)
Definition initFromUrl (searchParams : URLSearchParams.t) : FilterState :=
  let params :=
    URLSearchParams.ofString (URLSearchParams.toString searchParams) in
  {| searchTerm :=
       match URLSearchParams.get "search" params with
       | Some s => if JsString.truthy s then s else ""
       | None => ""
       end;
     selectedConsultation := URLSearchParams.get "consultation" params;
     selectedSpecialties := URLSearchParams.getAll "specialty" params;
     sortBy := URLSearchParams.get "sort" params |}.

(** State to URL and back. *)
Definition roundTrip (st : FilterState) : FilterState :=
  initFromUrl (useSearchParams (updateUrlParams st)).

(** An empty mode or sort key reads as none. *)
Definition unsetIfEmpty (o : option string) : option string :=
  match o with
  | Some s => if JsString.truthy s then Some s else None
  | None => None
  end.

(** The state a round trip returns: an empty mode or sort key is unset. *)
Definition normalized (st : FilterState) : FilterState :=
  mkFilterState (searchTerm st) (unsetIfEmpty (selectedConsultation st))
    (selectedSpecialties st) (unsetIfEmpty (sortBy st)).

(** The pair of an optional field, when the field is active. *)
Definition activeField (name : string) (o : option string)
  : URLSearchParams.t :=
  match unsetIfEmpty o with
  | Some v => [(name, v)]
  | None => []
  end.

(** Every character of [s] passes the test [P]. *)
Fixpoint string_forall (P : ascii -> bool) (s : string) : bool :=
  match s with
  | EmptyString => true
  | String c s' => P c && string_forall P s'
  end.

(** The characters that structure a query string. *)
Definition is_delimiter (c : ascii) : bool :=
  Ascii.eqb c "&" || Ascii.eqb c "=" || Ascii.eqb c "?".

(** ** Data fetching *)

Module DataFetch.

(** A value delivered by [response.json()].  Of a number only its being
    zero matters below, so integers stand for the numbers. *)
Local Unset Elimination Schemes.
Inductive JsonValue :=
| JNull
| JBool (b : bool)
| JNumber (n : Z)
| JString (s : string)
| JArray (items : list JsonValue)
| JObject (members : list (string * JsonValue)).
Local Set Elimination Schemes.

(** Truthiness, as [||] tests it: [null], [false], [0] and [""] are falsy,
    every array and every object is truthy. *)
Definition truthy (v : JsonValue) : bool :=
  match v with
  | JNull => false
  | JBool b => b
  | JNumber n => negb (n =? 0)
  | JString s => JsString.truthy s
  | JArray _ => true
  | JObject _ => true
  end.

(** [Array.isArray(v)] *)
Definition isArray (v : JsonValue) : bool :=
  match v with JArray _ => true | _ => false end.

(** What a rejected promise or a [throw] carries: an [Error] with its
    message, or some other value. *)
Inductive Thrown :=
| ErrorObject (message : string)
| OtherValue.

(** The parts of a [Response] the code reads; [json] is the outcome of
    [await response.json()]. *)
Record Response := mkResponse {
  ok : bool;
  status : nat;
  json : Thrown + JsonValue
}.

(** The outcome of [await fetch(url)]: rejected or resolved. *)
Definition FetchOutcome : Type := Thrown + Response.

(** The cells [fetchData] writes.  [allDoctors] is declared [Doctor[]],
    but holds whatever value is stored into it. *)
Record State := mkState {
  allDoctors : JsonValue;
  isLoading : bool;
  error : option string
}.

(** The cells when the component mounts. *)
Definition initialState : State := mkState (JArray []) true None.

Definition setAllDoctors (v : JsonValue) (st : State) : State :=
  mkState v (isLoading st) (error st).
Definition setIsLoading (b : bool) (st : State) : State :=
  mkState (allDoctors st) b (error st).
Definition setError (e : option string) (st : State) : State :=
  mkState (allDoctors st) (isLoading st) e.

(** [`${response.status}`] *)
Definition showStatus (n : nat) : string :=
  NilZero.string_of_uint (Nat.to_uint n).

(** The body of [try], up to the value handed to [setAllDoctors]: the
    thrown value, or [data]. *)
Definition tryBlock (outcome : FetchOutcome) : Thrown + JsonValue :=
  match outcome with
  | inl e => inl e
  | inr response =>
      if negb (ok response)
      then inl (ErrorObject
                  ("HTTP error! status: " ++ showStatus (status response)))
      else json response
  end.

(** The message of the [catch] block. *)
Definition failureMessage (e : Thrown) : string :=
  ("Failed to load doctor data. "
   ++ match e with
      | ErrorObject message => message
      | OtherValue => "Please try again later."
      end)%string.

(** [fetchData], as a function of what the network delivers. *)
Definition fetchData (outcome : FetchOutcome) (st : State) : State :=
  let st := setIsLoading true st in
  let st := setError None st in
  let st :=
    match tryBlock outcome with
    | inr data => setAllDoctors (if truthy data then data else JArray []) st
    | inl e => setError (Some (failureMessage e)) st
    end in
  setIsLoading false st.

(** A successful response whose body is an object that wraps the list. *)
Definition wrappedBody : JsonValue := JObject [("doctors", JArray [])].
Definition wrappedResponse : FetchOutcome :=
  inr (mkResponse true 200 (inr wrappedBody)).

End DataFetch.

(** ** Reference notions for the text claims *)

(** The position of a letter in the alphabet, whatever its case. *)
Definition letter_rank (c : ascii) : option N :=
  if JsString.is_upper c then Some (JsString.code c - 65)%N
  else if JsString.is_lower c then Some (JsString.code c - 97)%N
  else None.

(** Two characters are the same up to case: equal, or the same letter. *)
Definition same_letter (a b : ascii) : Prop :=
  a = b \/ exists k, letter_rank a = Some k /\ letter_rank b = Some k.

(** Two texts are the same up to case, character by character. *)
Inductive same_text : string -> string -> Prop :=
| same_text_nil : same_text EmptyString EmptyString
| same_text_cons a b s t :
    same_letter a b -> same_text s t -> same_text (String a s) (String b t).

(** [sub] occurs in [text] as a case-insensitive substring. *)
Definition contains_ignoring_case (text sub : string) : Prop :=
  exists pre mid post,
    text = (pre ++ mid ++ post)%string /\ same_text mid sub.

(** What follows the leading digits of [s]. *)
Fixpoint after_digits (s : string) : string :=
  match s with
  | String c s' => if JsString.is_digit c then after_digits s' else s
  | EmptyString => EmptyString
  end.

(** The number a decimal numeral writes: digits, then possibly a period
    and further digits; [None] when there is no digit to read. *)
Definition decimal_number (s : string) : option Q :=
  let whole := JsString.leading_digits s in
  let fraction :=
    match after_digits s with
    | String c r => if Ascii.eqb c "." then JsString.leading_digits r else ""
    | EmptyString => ""
    end in
  match whole, fraction with
  | EmptyString, EmptyString => None
  | _, _ =>
      Some (Qplus (inject_Z (JsString.digits_value 0 whole))
              (Qmake (JsString.digits_value 0 fraction)
                 (Z.to_pos (10 ^ Z.of_nat (String.length fraction)))))
  end.

(** The fee in the words of the specification: "the numeric value
    extracted ... by stripping all non-digit and non-decimal characters",
    that is the number written by what the stripping leaves, and zero when
    no number can be read or the fee is missing. *)
Definition specFeeValue (fee : option string) : Q :=
  match fee with
  | None => 0%Q
  | Some s =>
      match decimal_number (JsString.strip_non_numeric s) with
      | Some q => q
      | None => 0%Q
      end
  end.

(** The experience in the words of the specification: "the leading
    integer extracted from each doctor's experience string", and zero when
    the string does not start with an integer or is missing. *)
Definition specExperienceValue (experience : option string) : Z :=
  match experience with
  | None => 0
  | Some s => JsString.digits_value 0 (JsString.leading_digits s)
  end.

(** ** Sample records *)

Definition noAddress : Address.t := Address.mk "" "" "" "" None.
Definition noClinic : Clinic.t := Clinic.mk "" noAddress.

(** A record with the fields the pipeline reads; the others are blank. *)
Definition sampleDoctor (id name : string) (specs : list string)
    (fees experience : option string) (video clinic : bool) : Doctor :=
  mkDoctor id name "" "" "" (map Speciality.mk specs) fees experience []
    noClinic video clinic.

(** Three doctors used in the examples. *)
Definition anita : Doctor :=
  sampleDoctor "1" "Anita" ["Dentist"] (Some "₹ 500")
    (Some "5 Years of experience") true false.
Definition meera : Doctor :=
  sampleDoctor "2" "Meera" ["Cardiologist"] (Some "₹ 100")
    (Some "13 Years of experience") false true.
Definition karan : Doctor :=
  sampleDoctor "3" "Karan" ["ENT"; "Dentist"] (Some "abc")
    (Some "8 Years of experience") true true.

(** Two doctors whose fees differ only after the decimal point. *)
Definition ravi : Doctor :=
  sampleDoctor "4" "Ravi" ["Dentist"] (Some "₹ 99.50")
    (Some "2 Years of experience") true true.
Definition sunil : Doctor :=
  sampleDoctor "5" "Sunil" ["Dentist"] (Some "₹ 99.20")
    (Some "2 Years of experience") true true.

(** Two doctors whose years differ, by one, beyond what a double tells
    apart. *)
Definition elder : Doctor :=
  sampleDoctor "6" "Elder" ["Dentist"] (Some "₹ 100")
    (Some "99999999999999999999 Years of experience") true true.
Definition eldest : Doctor :=
  sampleDoctor "7" "Eldest" ["Dentist"] (Some "₹ 100")
    (Some "100000000000000000000 Years of experience") true true.

(** A doctor whose name is written in Greek capitals. *)
Definition asa : Doctor :=
  sampleDoctor "8" "ΑΣΑ" ["Dentist"] (Some "₹ 100")
    (Some "3 Years of experience") true true.

(** The filter state of a page opened without query string. *)
Definition noFilter : FilterState := mkFilterState "" None [] None.

Definition withSort (key : string) (st : FilterState) : FilterState :=
  mkFilterState (searchTerm st) (selectedConsultation st)
    (selectedSpecialties st) (Some key).

(** ** Event handlers *)

(** [handleSpecialtyChange]: the updater given to [setSelectedSpecialties],
    for the [value] and [checked] of the checkbox that changed. *)
Definition handleSpecialtyChange (value : string) (checked : bool)
    (prev : list string) : list string :=
  if checked then (prev ++ [value])%list
  else List.filter (fun spec => negb (String.eqb spec value)) prev.

(** The two cells of the search box, with the handlers and the effect that
    write them. *)
Module SearchBox.

(** The list the suggestions effect computes. *)
Definition computed (searchTerm : string) (allDoctors : list Doctor)
  : list Doctor :=
  suggestions searchTerm allDoctors.

Record t := mk {
  searchTerm : string;
  suggestions : list Doctor
}.

(** [handleSearchChange] *)
Definition handleSearchChange (value : string) (st : t) : t :=
  mk value (suggestions st).

(** [handleSuggestionClick] *)
Definition handleSuggestionClick (doctorName : string) (st : t) : t :=
  mk doctorName [].

(** [handleSearchSubmit] *)
Definition handleSearchSubmit (st : t) : t :=
  mk (searchTerm st) [].

(** The suggestions effect: it stores the list computed from the search
    text and the doctors. *)
Definition suggestionsEffect (allDoctors : list Doctor) (st : t) : t :=
  mk (searchTerm st) (computed (searchTerm st) allDoctors).

(** What React does after a handler turned the cells [before] into
    [after] while the doctors stayed the same: the effect lists
    [searchTerm] among its dependencies, so it runs again exactly when the
    search text changed. *)
Definition afterRender (allDoctors : list Doctor) (before after : t) : t :=
  if String.eqb (searchTerm before) (searchTerm after) then after
  else suggestionsEffect allDoctors after.

End SearchBox.

(** ** Specialties of the filter panel *)

Definition testIdOrder : list string :=
  [ "General Physician"; "Dentist"; "Dermatologist"; "Paediatrician";
    "Gynaecologist"; "ENT"; "Diabetologist"; "Cardiologist";
    "Physiotherapist"; "Endocrinologist"; "Orthopaedic"; "Ophthalmologist";
    "Gastroenterologist"; "Pulmonologist"; "Psychiatrist"; "Urologist";
    "Dietitian/Nutritionist"; "Psychologist"; "Sexologist"; "Nephrologist";
    "Neurologist"; "Oncologist"; "Ayurveda"; "Homeopath" ].

(** [arr.indexOf(x)]; [None] stands for [-1]. *)
Fixpoint indexOf (l : list string) (x : string) : option nat :=
  match l with
  | [] => None
  | y :: l' => if String.eqb y x then Some 0%nat else option_map S (indexOf l' x)
  end.

(** [set.add(x)] on a [Set] kept as the list of its members in insertion
    order, the order in which the spread [[...set]] reads them. *)
Definition set_add (x : string) (members : list string) : list string :=
  if array_includes members x then members else (members ++ [x])%list.

(** The two nested [forEach] loops that fill the set. *)
Definition collectSpecialties (allDoctors : list Doctor) : list string :=
  fold_left
    (fun members doctor =>
       fold_left (fun members specObj => set_add (Speciality.name specObj) members)
         (specialities doctor) members)
    allDoctors [].

(** [a.localeCompare(b)] depends on the collation of the browser and is a
    parameter here. *)
Section UniqueSpecialties.
Variable localeCompare : string -> string -> Z.

(** The comparator of the panel. *)
Definition specialtyCompare (a b : string) : Z :=
  match indexOf testIdOrder a, indexOf testIdOrder b with
  | Some indexA, Some indexB => Z.of_nat indexA - Z.of_nat indexB
  | Some _, None => -1
  | None, Some _ => 1
  | None, None => localeCompare a b
  end.

(** The value of [uniqueSpecialties]. *)
Definition uniqueSpecialties (allDoctors : list Doctor) : list string :=
  array_sort specialtyCompare (collectSpecialties allDoctors).
End UniqueSpecialties.

(** Every specialty name of every doctor, in the order the loops visit
    them. *)
Definition allSpecialtyNames (allDoctors : list Doctor) : list string :=
  flat_map (fun doctor => map Speciality.name (specialities doctor)) allDoctors.

(** [a] may stand before [b] in the panel: both are in the preferred list
    and [a] is not the later one there, or only [a] is in it, or neither
    is and the collation does not put [b] first. *)
Definition panelBefore (localeCompare : string -> string -> Z) (a b : string)
  : Prop :=
  match indexOf testIdOrder a, indexOf testIdOrder b with
  | Some indexA, Some indexB => (indexA <= indexB)%nat
  | Some _, None => True
  | None, Some _ => False
  | None, None => localeCompare a b <= 0
  end.

(** ** What the list area renders *)

Inductive Region :=
| LoadingLine
| ErrorBanner (message : string)
| DoctorGrid (cards : list Doctor)
| NoneFound.

(** The children of [<main>], in order; a child whose guard is falsy
    renders nothing. *)
Definition mainRegions (isLoading : bool) (error : option string)
    (filteredDoctors : list Doctor) : list Region :=
  ((if isLoading then [LoadingLine] else [])
   ++ (match error with
       | Some message => if JsString.truthy message then [ErrorBanner message] else []
       | None => []
       end)
   ++ (if negb isLoading
          && negb (match error with
                   | Some message => JsString.truthy message
                   | None => false
                   end)
       then if (0 <? length filteredDoctors)%nat
            then [DoctorGrid filteredDoctors] else [NoneFound]
       else []))%list.

(** ** Notions used to state the properties of the pipeline *)

(** The test each filter stage applies to a doctor; an inactive stage
    keeps every doctor. *)
Definition searchKeeps (searchTerm : string) (doctor : Doctor) : bool :=
  negb (JsString.truthy searchTerm)
  || nameIncludes (JsString.toLowerCase searchTerm) doctor.

Definition consultationKeeps (selectedConsultation : option string)
    (doctor : Doctor) : bool :=
  match selectedConsultation with
  | Some mode =>
      if JsString.truthy mode then consultationMatch mode doctor else true
  | None => true
  end.

Definition specialtyKeeps (selectedSpecialties : list string)
    (doctor : Doctor) : bool :=
  negb (0 <? length selectedSpecialties)%nat
  || specialtyMatch selectedSpecialties doctor.

Definition visible (st : FilterState) (doctor : Doctor) : bool :=
  searchKeeps (searchTerm st) doctor
  && consultationKeeps (selectedConsultation st) doctor
  && specialtyKeeps (selectedSpecialties st) doctor.

(** The names a query string may carry for the page. *)
Definition knownParam (p : string * string) : bool :=
  String.eqb (fst p) "search" || String.eqb (fst p) "consultation"
  || String.eqb (fst p) "specialty" || String.eqb (fst p) "sort".

(** * Properties *)

(** ** Facts about [Array.prototype.sort] *)

Section ArraySortFacts.
Context {A : Type}.
Variable compareFn : A -> A -> Z.

Lemma sort_insert_perm x l : sort_insert compareFn x l ≡ₚ x :: l.
Proof.
  induction l as [|y l IH]; simpl; [reflexivity|].
  destruct (compareFn x y <=? 0); [reflexivity|].
  rewrite IH. apply Permutation_swap.
Qed.

Lemma array_sort_perm l : array_sort compareFn l ≡ₚ l.
Proof.
  induction l as [|x l IH]; simpl; [reflexivity|].
  rewrite sort_insert_perm. by rewrite IH.
Qed.

Lemma array_sort_length l : length (array_sort compareFn l) = length l.
Proof. apply Permutation_length, array_sort_perm. Qed.

(** A comparator that answers 0 on every pair moves nothing. *)
Lemma array_sort_ties l :
  (forall a b, compareFn a b = 0) -> array_sort compareFn l = l.
Proof.
  intros Hz. induction l as [|x l IH]; simpl; [reflexivity|].
  rewrite IH. destruct l as [|y l]; simpl; [reflexivity|].
  by rewrite Hz.
Qed.

(** An element that the comparator puts before the head stays in front. *)
Lemma sort_insert_front x l :
  match l with [] => True | y :: _ => compareFn x y <= 0 end ->
  sort_insert compareFn x l = x :: l.
Proof.
  destruct l as [|y l]; [reflexivity|]. simpl. intros H.
  destruct (Z.leb_spec (compareFn x y) 0); [reflexivity | lia].
Qed.

(** Stability: elements that the comparator does not tell apart keep their
    order.  [q] selects such elements. *)
Lemma sort_insert_stable (q : A -> bool) x l :
  (forall a b, q a = true -> q b = true -> compareFn a b <= 0) ->
  List.filter q (sort_insert compareFn x l) = List.filter q (x :: l).
Proof.
  intros Hq. induction l as [|y l IH]; [reflexivity|].
  cbn [sort_insert].
  destruct (Z.leb_spec (compareFn x y) 0) as [Hle|Hgt]; [reflexivity|].
  cbn [List.filter] in *. rewrite IH.
  destruct (q y) eqn:Hy; destruct (q x) eqn:Hx; try reflexivity.
  specialize (Hq x y Hx Hy). lia.
Qed.

Lemma array_sort_stable (q : A -> bool) l :
  (forall a b, q a = true -> q b = true -> compareFn a b <= 0) ->
  List.filter q (array_sort compareFn l) = List.filter q l.
Proof.
  intros Hq. induction l as [|x l IH]; [reflexivity|].
  cbn [array_sort]. rewrite sort_insert_stable by exact Hq.
  cbn [List.filter]. by rewrite IH.
Qed.

(** Comparators that are total and transitive. *)
Section ByOrder.
Hypothesis compare_total : forall a b, 0 < compareFn a b -> compareFn b a <= 0.
Hypothesis compare_trans :
  forall a b c, compareFn a b <= 0 -> compareFn b c <= 0 -> compareFn a c <= 0.

Lemma sort_insert_ordered x l :
  StronglySorted (fun a b => compareFn a b <= 0) l ->
  StronglySorted (fun a b => compareFn a b <= 0) (sort_insert compareFn x l).
Proof.
  induction 1 as [|y l Hs IH Hall]; simpl; [repeat constructor|].
  destruct (Z.leb_spec (compareFn x y) 0) as [Hle|Hgt].
  - constructor; [by constructor|]. constructor; [exact Hle|].
    eapply Forall_impl; [exact Hall|]. simpl. intros z Hz.
    by apply compare_trans with y.
  - constructor; [exact IH|]. rewrite (sort_insert_perm x l).
    constructor; [by apply compare_total | exact Hall].
Qed.

Lemma array_sort_ordered l :
  StronglySorted (fun a b => compareFn a b <= 0) (array_sort compareFn l).
Proof.
  induction l as [|x l IH]; simpl; [constructor | by apply sort_insert_ordered].
Qed.

(** Sorting a sorted list changes nothing. *)
Lemma array_sort_sorted_id l :
  StronglySorted (fun a b => compareFn a b <= 0) l -> array_sort compareFn l = l.
Proof.
  induction 1 as [|x l _ IH Hall]; [reflexivity|].
  cbn [array_sort]. rewrite IH. apply sort_insert_front.
  destruct l as [|y l]; [exact I|].
  by apply Forall_cons in Hall as [Hy _].
Qed.

Lemma array_sort_idem l :
  array_sort compareFn (array_sort compareFn l) = array_sort compareFn l.
Proof. apply array_sort_sorted_id, array_sort_ordered. Qed.

Lemma filter_head_ordered (p : A -> bool) x l :
  Forall (fun b => compareFn x b <= 0) l ->
  match List.filter p l with [] => True | y :: _ => compareFn x y <= 0 end.
Proof.
  intros Hall. destruct (List.filter p l) as [|y r] eqn:Hf; [exact I|].
  assert (Hy : In y (List.filter p l)) by (rewrite Hf; by left).
  apply filter_In in Hy as [Hy _].
  rewrite Forall_forall in Hall. apply list_elem_of_In in Hy.
  exact (Hall y Hy).
Qed.

(** Filtering a sorted list after an insertion is inserting into the
    filtered list. *)
Lemma filter_sort_insert (p : A -> bool) x l :
  StronglySorted (fun a b => compareFn a b <= 0) l ->
  List.filter p (sort_insert compareFn x l)
  = if p x then sort_insert compareFn x (List.filter p l) else List.filter p l.
Proof.
  induction 1 as [|y l Hs IH Hall]; [simpl; by destruct (p x)|].
  cbn [sort_insert].
  destruct (Z.leb_spec (compareFn x y) 0) as [Hle|Hgt].
  - cbn [List.filter]. destruct (p x); [|reflexivity].
    symmetry. apply sort_insert_front.
    change (match List.filter p (y :: l) with
            | [] => True | z :: _ => compareFn x z <= 0 end).
    apply filter_head_ordered. constructor; [exact Hle|].
    eapply Forall_impl; [exact Hall|]. simpl. intros z Hz.
    by apply compare_trans with y.
  - cbn [List.filter]. rewrite IH.
    destruct (p y), (p x); try reflexivity.
    cbn [sort_insert].
    destruct (Z.leb_spec (compareFn x y) 0); [lia | reflexivity].
Qed.

(** Filtering commutes with sorting. *)
Lemma filter_array_sort (p : A -> bool) l :
  List.filter p (array_sort compareFn l)
  = array_sort compareFn (List.filter p l).
Proof.
  induction l as [|x l IH]; [reflexivity|].
  cbn [array_sort List.filter].
  rewrite filter_sort_insert by apply array_sort_ordered.
  rewrite IH. by destruct (p x).
Qed.
End ByOrder.
End ArraySortFacts.

(** ** Each stage selects from its input *)

Lemma filter_sublist {A} (f : A -> bool) (l : list A) :
  List.filter f l `sublist_of` l.
Proof.
  induction l as [|x l IH]; simpl; [constructor|].
  destruct (f x); by constructor.
Qed.

Lemma searchStage_sublist term l : searchStage term l `sublist_of` l.
Proof.
  unfold searchStage. destruct (JsString.truthy term);
    [apply filter_sublist | reflexivity].
Qed.

Lemma consultationStage_sublist mode l :
  consultationStage mode l `sublist_of` l.
Proof.
  unfold consultationStage. destruct mode as [m|]; [|reflexivity].
  destruct (JsString.truthy m); [apply filter_sublist | reflexivity].
Qed.

Lemma specialtyStage_sublist sel l : specialtyStage sel l `sublist_of` l.
Proof.
  unfold specialtyStage. destruct (0 <? length sel)%nat;
    [apply filter_sublist | reflexivity].
Qed.

Lemma filterStages_sublist raw st : filterStages raw st `sublist_of` raw.
Proof.
  unfold filterStages.
  etrans; [apply specialtyStage_sublist|].
  etrans; [apply consultationStage_sublist|].
  apply searchStage_sublist.
Qed.

Lemma sortStage_perm key l : sortStage key l ≡ₚ l.
Proof.
  unfold sortStage. destruct key as [k|]; [|reflexivity].
  destruct (JsString.truthy k); [apply array_sort_perm | reflexivity].
Qed.

(** C2.  The list shown is drawn from the raw list: as a multiset it is
    contained in the raw list, so every doctor shown is a fetched doctor
    and none is shown more often than it was fetched; without a sort key
    it is a subsequence of the raw list, so the fetch order is kept. *)
Theorem filteredDoctors_subset (raw : list Doctor) (st : FilterState) :
  filteredDoctors raw st ⊆+ raw
  /\ (forall d, In d (filteredDoctors raw st) -> In d raw)
  /\ (sortBy st = None -> filteredDoctors raw st `sublist_of` raw).
Proof.
  assert (Hsub : filteredDoctors raw st ⊆+ raw).
  { unfold filteredDoctors.
    etrans; [apply Permutation_submseteq, sortStage_perm|].
    apply sublist_submseteq, filterStages_sublist. }
  split; [exact Hsub|]. split.
  - intros d Hd. apply list_elem_of_In.
    eapply elem_of_submseteq; [|exact Hsub]. by apply list_elem_of_In.
  - intros Hnone. unfold filteredDoctors. rewrite Hnone. simpl.
    apply filterStages_sublist.
Qed.

Lemma filteredDoctors_subset_witness :
  filteredDoctors [anita; meera; karan]
    (mkFilterState "an" (Some "video") [] None)
  `sublist_of` [anita; meera; karan].
Proof.
  apply (proj2 (proj2 (filteredDoctors_subset [anita; meera; karan]
                         (mkFilterState "an" (Some "video") [] None)))).
  reflexivity.
Defined.

(** ** Facts about strings *)

Module JsStringFacts.
Import JsString.

Lemma code_inj a b : code a = code b -> a = b.
Proof.
  unfold code. intros H.
  rewrite <- (ascii_N_embedding a), <- (ascii_N_embedding b). by rewrite H.
Qed.

Lemma code_lower_char c :
  code (lower_char c) = if is_upper c then (code c + 32)%N else code c.
Proof.
  unfold lower_char. destruct (is_upper c) eqn:Hu; [|reflexivity].
  unfold code. apply N_ascii_embedding.
  unfold is_upper, code in Hu. apply andb_prop in Hu as [_ Hu].
  apply N.leb_le in Hu. lia.
Qed.

Lemma lower_char_eq_iff a b : lower_char a = lower_char b <-> same_letter a b.
Proof.
  assert (Hiff : lower_char a = lower_char b
                 <-> code (lower_char a) = code (lower_char b)).
  { split; [by intros -> | apply code_inj]. }
  rewrite Hiff, !code_lower_char. clear Hiff.
  unfold same_letter, letter_rank, is_upper, is_lower.
  pose proof (N_ascii_bounded a) as Ha. pose proof (N_ascii_bounded b) as Hb.
  assert (Heq : a = b <-> code a = code b).
  { split; [by intros -> | apply code_inj]. }
  rewrite Heq. unfold code in *.
  destruct (N.leb_spec 65 (N_of_ascii a)), (N.leb_spec (N_of_ascii a) 90),
    (N.leb_spec 97 (N_of_ascii a)), (N.leb_spec (N_of_ascii a) 122),
    (N.leb_spec 65 (N_of_ascii b)), (N.leb_spec (N_of_ascii b) 90),
    (N.leb_spec 97 (N_of_ascii b)), (N.leb_spec (N_of_ascii b) 122);
    simpl; try lia;
    (split;
     [ intros He; first [ left; lia | right; eexists; split; [reflexivity|]; f_equal; lia ]
     | intros [He | (k & Hk1 & Hk2)]; [lia | try discriminate; injection Hk1; injection Hk2; lia] ]).
Qed.

Lemma lowerAscii_eq_iff s t : lowerAscii s = lowerAscii t <-> same_text s t.
Proof.
  split.
  - revert t. induction s as [|a s IH]; intros [|b t] H; simpl in H;
      try discriminate; [constructor|].
    injection H as Hc Hs. constructor; [by apply lower_char_eq_iff | auto].
  - induction 1 as [|a b s t Hab _ IH]; simpl; [reflexivity|].
    apply lower_char_eq_iff in Hab. by rewrite Hab, IH.
Qed.

Lemma lowerAscii_app s t :
  lowerAscii (s ++ t) = (lowerAscii s ++ lowerAscii t)%string.
Proof. induction s as [|a s IH]; simpl; [reflexivity | by rewrite IH]. Qed.

(** A lowered text splits where the original does. *)
Lemma lowerAscii_app_inv s u v :
  lowerAscii s = (u ++ v)%string ->
  exists s1 s2, s = (s1 ++ s2)%string
                /\ lowerAscii s1 = u /\ lowerAscii s2 = v.
Proof.
  revert s. induction u as [|c u IH]; intros s H; simpl in H.
  - exists EmptyString, s. auto.
  - destruct s as [|a s]; simpl in H; [discriminate|].
    injection H as Hc Hs. destruct (IH s Hs) as (s1 & s2 & -> & H1 & H2).
    exists (String a s1), s2. simpl. by rewrite Hc, H1.
Qed.

Lemma startsWith_iff s p :
  startsWith s p = true <-> exists post, s = (p ++ post)%string.
Proof.
  revert s. induction p as [|a p IH]; intros s; simpl.
  - split; [intros _; by exists s | reflexivity].
  - destruct s as [|b s].
    + split; [discriminate | intros [post H]; discriminate].
    + rewrite andb_true_iff, IH, Ascii.eqb_eq. split.
      * intros [-> [post ->]]. by exists post.
      * intros [post H]. injection H as -> ->. eauto.
Qed.

Lemma includes_iff s sub :
  includes s sub = true <-> exists pre post, s = (pre ++ sub ++ post)%string.
Proof.
  induction s as [|a s IH]; simpl.
  - rewrite orb_false_r, startsWith_iff. split.
    + intros [post H]. by exists EmptyString, post.
    + intros (pre & post & H). destruct pre; [by exists post | discriminate].
  - rewrite orb_true_iff, IH, startsWith_iff. split.
    + intros [[post H] | (pre & post & ->)].
      * by exists EmptyString, post.
      * by exists (String a pre), post.
    + intros (pre & post & H). destruct pre as [|b pre]; simpl in H.
      * left. by exists post.
      * right. injection H as -> ->. eauto.
Qed.

(** On ASCII text [toLowerCase] lowers character by character. *)
Lemma lower_from_ascii before s :
  is_ascii s = true -> lower_from before s = lowerAscii s.
Proof.
  revert before. induction s as [|c r IH]; intros before H; [reflexivity|].
  cbn [is_ascii] in H. apply andb_prop in H as [Hc Hr].
  apply N.ltb_lt in Hc.
  assert (Hcap : forall d, greek_capital c d = false).
  { intros d. unfold greek_capital.
    destruct (N.eqb_spec (code c) 206) as [E|_]; [lia | reflexivity]. }
  assert (Hsmall : forall d, greek_small c d = false).
  { intros d. unfold greek_small.
    destruct (N.eqb_spec (code c) 206) as [E|_]; [lia|].
    destruct (N.eqb_spec (code c) 207) as [E|_]; [lia | reflexivity]. }
  assert (Hone :
    (if is_upper c || is_lower c
     then String (lower_char c) (lower_from true r)
     else if case_ignorable c then String c (lower_from before r)
          else String c (lower_from false r))
    = String (lower_char c) (lowerAscii r)).
  { rewrite !(IH _ Hr). unfold lower_char.
    destruct (is_upper c); simpl; [reflexivity|].
    destruct (is_lower c); simpl; [reflexivity|].
    by destruct (case_ignorable c). }
  cbn [lower_from lowerAscii].
  destruct r as [|d r']; [exact Hone|].
  rewrite Hcap, Hsmall. exact Hone.
Qed.

Lemma toLowerCase_ascii s : is_ascii s = true -> toLowerCase s = lowerAscii s.
Proof. apply lower_from_ascii. Qed.

Lemma is_ascii_app s t : is_ascii (s ++ t) = is_ascii s && is_ascii t.
Proof.
  induction s as [|c s IH]; simpl; [reflexivity|]. by rewrite IH, andb_assoc.
Qed.

Lemma includes_lowerAscii_iff text sub :
  includes (lowerAscii text) (lowerAscii sub) = true
  <-> contains_ignoring_case text sub.
Proof.
  rewrite includes_iff. unfold contains_ignoring_case. split.
  - intros (pre & post & H).
    apply lowerAscii_app_inv in H as (s1 & s23 & -> & H1 & H23).
    apply lowerAscii_app_inv in H23 as (s2 & s3 & -> & H2 & H3).
    exists s1, s2, s3. split; [reflexivity|]. by apply lowerAscii_eq_iff.
  - intros (pre & mid & post & -> & Hmid).
    apply lowerAscii_eq_iff in Hmid.
    exists (lowerAscii pre), (lowerAscii post).
    by rewrite !lowerAscii_app, Hmid.
Qed.

(** On ASCII text the test of the page is the case-insensitive substring
    test. *)
Lemma includes_lower_iff text sub :
  is_ascii text = true -> is_ascii sub = true ->
  (includes (toLowerCase text) (toLowerCase sub) = true
   <-> contains_ignoring_case text sub).
Proof.
  intros Ht Hs. rewrite !toLowerCase_ascii by assumption.
  apply includes_lowerAscii_iff.
Qed.

Lemma truthy_iff s : truthy s = true <-> s <> EmptyString.
Proof. destruct s; simpl; split; congruence. Qed.
End JsStringFacts.

(** ** The filter stages *)

Lemma filter_none {A} (f : A -> bool) (l : list A) :
  (forall x, f x = false) -> List.filter f l = [].
Proof.
  intros Hf. induction l as [|x l IH]; simpl; [reflexivity|]. by rewrite Hf.
Qed.

Lemma nameIncludes_iff term d :
  JsString.is_ascii term = true -> JsString.is_ascii (name d) = true ->
  (nameIncludes (JsString.toLowerCase term) d = true
   <-> contains_ignoring_case (name d) term).
Proof.
  intros Ht Hd. unfold nameIncludes.
  by apply JsStringFacts.includes_lower_iff.
Qed.

Lemma contains_ignoring_case_empty text : contains_ignoring_case text "".
Proof.
  exists EmptyString, EmptyString, text. split; [reflexivity | constructor].
Qed.

Lemma same_text_refl s : same_text s s.
Proof. induction s; constructor; [by left | assumption]. Qed.

Lemma includes_empty s : JsString.includes s "" = true.
Proof. by destruct s. Qed.

(** Membership in the list of the search stage, in the terms of the code. *)
Lemma searchStage_In term l d :
  In d (searchStage term l)
  <-> In d l /\ nameIncludes (JsString.toLowerCase term) d = true.
Proof.
  unfold searchStage. destruct (JsString.truthy term) eqn:Ht.
  - apply filter_In.
  - destruct term; [|discriminate]. unfold nameIncludes.
    change (JsString.toLowerCase "") with "". rewrite includes_empty. tauto.
Qed.

(** C7, as the code has it.  The search stage keeps, in order, the doctors
    whose lowered name contains the lowered search text, and no other.
    For a search text and a name made of ASCII characters that is to say
    that the name contains the search text as a case-insensitive
    substring.  With an empty search text every doctor is kept; ["an"]
    finds both ["Anita"] and ["Karan"]. *)
Theorem searchStage_spec (term : string) (l : list Doctor) :
  (forall d, In d (searchStage term l)
             <-> In d l
                 /\ JsString.includes (JsString.toLowerCase (name d))
                      (JsString.toLowerCase term) = true)
  /\ (JsString.is_ascii term = true ->
      forall d, JsString.is_ascii (name d) = true ->
        (In d (searchStage term l)
         <-> In d l /\ contains_ignoring_case (name d) term))
  /\ searchStage term l `sublist_of` l
  /\ searchStage "" l = l
  /\ searchStage "an" [anita; meera; karan] = [anita; karan].
Proof.
  split; [intros d; apply searchStage_In|].
  split; [|split; [apply searchStage_sublist | split; reflexivity]].
  intros Ht d Hd. rewrite searchStage_In, (nameIncludes_iff term d Ht Hd).
  reflexivity.
Qed.

Lemma searchStage_spec_witness :
  In karan (searchStage "AN" [anita; meera; karan])
  <-> In karan [anita; meera; karan] /\ contains_ignoring_case (name karan) "AN".
Proof.
  apply (proj1 (proj2 (searchStage_spec "AN" [anita; meera; karan]))
           eq_refl karan eq_refl).
Defined.

(** The claim C7 as worded fails beyond ASCII: the name ["ΑΣΑ"] contains
    the search text ["ΑΣ"], letter for letter, and the search stage does
    not keep the doctor, because the Σ that ends the search text is
    lowered to ς and the Σ inside the name to σ. *)
Lemma search_misses_final_sigma :
  In asa [asa]
  /\ contains_ignoring_case (name asa) "ΑΣ"
  /\ ~ In asa (searchStage "ΑΣ" [asa]).
Proof.
  split; [by left|]. split.
  - exists EmptyString, "ΑΣ", "Α". split; [reflexivity | apply same_text_refl].
  - vm_compute. tauto.
Qed.

Lemma consultationStage_unknown mode l :
  mode <> "" -> mode <> "video" -> mode <> "clinic" ->
  consultationStage (Some mode) l = [].
Proof.
  intros Hne Hv Hc. unfold consultationStage.
  apply JsStringFacts.truthy_iff in Hne. rewrite Hne.
  apply filter_none. intros d. unfold consultationMatch.
  apply String.eqb_neq in Hv, Hc. by rewrite Hv, Hc.
Qed.

(** C5.  With mode ["video"] the stage keeps exactly the doctors whose
    [video_consult] flag is true, with mode ["clinic"] exactly those whose
    [in_clinic] flag is true, and with any other non-empty mode none. *)
Theorem consultationStage_spec (l : list Doctor) :
  consultationStage (Some "video") l = List.filter video_consult l
  /\ consultationStage (Some "clinic") l = List.filter in_clinic l
  /\ (forall d, In d (consultationStage (Some "video") l)
                <-> In d l /\ video_consult d = true)
  /\ (forall d, In d (consultationStage (Some "clinic") l)
                <-> In d l /\ in_clinic d = true)
  /\ (forall mode, mode <> "" -> mode <> "video" -> mode <> "clinic" ->
        consultationStage (Some mode) l = []).
Proof.
  split; [reflexivity|]. split; [reflexivity|].
  split; [intros d; apply filter_In|]. split; [intros d; apply filter_In|].
  intros mode Hne Hv Hc. by apply consultationStage_unknown.
Qed.

Lemma consultationStage_spec_witness :
  consultationStage (Some "phone") [anita; meera; karan] = [].
Proof.
  apply (proj2 (proj2 (proj2 (proj2
           (consultationStage_spec [anita; meera; karan])))) "phone");
    discriminate.
Defined.

Lemma array_includes_iff sel x : array_includes sel x = true <-> In x sel.
Proof.
  unfold array_includes. rewrite existsb_exists. split.
  - intros (y & Hy & Heq). apply String.eqb_eq in Heq. by subst.
  - intros H. exists x. split; [exact H | apply String.eqb_refl].
Qed.

Lemma specialtyMatch_iff sel d :
  specialtyMatch sel d = true
  <-> exists sp, In sp (specialities d) /\ In (Speciality.name sp) sel.
Proof.
  unfold specialtyMatch. rewrite existsb_exists.
  split; intros (sp & Hsp & H); exists sp; split; auto;
    by apply array_includes_iff.
Qed.

Lemma specialtyMatch_pair a b d :
  specialtyMatch [a; b] d = specialtyMatch [a] d || specialtyMatch [b] d.
Proof.
  unfold specialtyMatch, array_includes.
  induction (specialities d) as [|sp l IH]; simpl; [reflexivity|].
  simpl in IH. rewrite IH, !orb_false_r.
  destruct (Speciality.name sp =? a)%string, (Speciality.name sp =? b)%string;
    simpl; try reflexivity;
    repeat match goal with |- context [existsb ?f ?l] => destruct (existsb f l) end;
    reflexivity.
Qed.

(** C6.  With a non-empty selection the stage keeps a doctor exactly when
    one of the doctor's specialty names is selected; selecting two
    specialties keeps the doctors of either one (the union), not only the
    doctors of both. *)
Theorem specialtyStage_spec (sel : list string) (l : list Doctor) :
  sel <> [] ->
  specialtyStage sel l = List.filter (specialtyMatch sel) l
  /\ (forall d, In d (specialtyStage sel l)
                <-> In d l /\ exists sp, In sp (specialities d)
                                         /\ In (Speciality.name sp) sel)
  /\ (forall a b d, In d (specialtyStage [a; b] l)
                    <-> In d (specialtyStage [a] l) \/ In d (specialtyStage [b] l))
  /\ specialtyStage ["Dentist"; "ENT"] [anita; meera; karan] = [anita; karan].
Proof.
  intros Hsel.
  assert (Heq : specialtyStage sel l = List.filter (specialtyMatch sel) l).
  { unfold specialtyStage. destruct sel; [congruence | reflexivity]. }
  split; [exact Heq|]. split; [|split; [|reflexivity]].
  - intros d. rewrite Heq, filter_In, specialtyMatch_iff. reflexivity.
  - intros a b d. unfold specialtyStage. simpl.
    rewrite !filter_In, specialtyMatch_pair, orb_true_iff. tauto.
Qed.

Lemma specialtyStage_spec_witness :
  specialtyStage ["ENT"] [anita; meera; karan] = [karan].
Proof.
  rewrite (proj1 (specialtyStage_spec ["ENT"] [anita; meera; karan]
                    ltac:(discriminate))).
  reflexivity.
Defined.

(** ** Suggestions *)

(** C8, as the code has it.  With an empty search text there is no
    suggestion; otherwise the suggestions are the first five, at most, of
    the doctors whose lowered name contains the lowered search text, in
    the order of the raw list, which for a search text and a name made of
    ASCII characters is to say that the name contains the search text
    case-insensitively; there are never more than five. *)
Theorem suggestions_spec (term : string) (raw : list Doctor) :
  suggestions "" raw = []
  /\ (term <> "" ->
      suggestions term raw
      = firstn 5 (List.filter (nameIncludes (JsString.toLowerCase term)) raw))
  /\ (JsString.is_ascii term = true ->
      forall d, JsString.is_ascii (name d) = true ->
        (nameIncludes (JsString.toLowerCase term) d = true
         <-> contains_ignoring_case (name d) term))
  /\ (length (suggestions term raw) <= 5)%nat
  /\ suggestions term raw `sublist_of` raw.
Proof.
  assert (Hne : term <> "" ->
      suggestions term raw
      = firstn 5 (List.filter (nameIncludes (JsString.toLowerCase term)) raw)).
  { intros Hterm. unfold suggestions, slice0.
    destruct term as [|c term]; [congruence|]. simpl String.length.
    destruct raw; reflexivity. }
  split; [reflexivity|]. split; [exact Hne|].
  split; [intros Ht d Hd; by apply nameIncludes_iff|].
  destruct term as [|c term].
  - split; [simpl; lia | apply sublist_nil_l].
  - rewrite Hne by discriminate. split.
    + rewrite length_firstn. lia.
    + etrans; [apply sublist_take | apply filter_sublist].
Qed.

Lemma suggestions_spec_witness :
  suggestions "an" [anita; meera; karan] = [anita; karan]
  /\ (nameIncludes (JsString.toLowerCase "an") karan = true
      <-> contains_ignoring_case (name karan) "an").
Proof.
  split.
  - rewrite (proj1 (proj2 (suggestions_spec "an" [anita; meera; karan])))
      by discriminate.
    reflexivity.
  - apply (proj1 (proj2 (proj2 (suggestions_spec "an" [anita; meera; karan])))
             eq_refl karan eq_refl).
Defined.

(** The claim C8 as worded fails beyond ASCII: the only doctor's name,
    ["ΑΣΑ"], contains the search text ["ΑΣ"], and the doctor is not
    suggested. *)
Lemma suggestions_miss_final_sigma :
  contains_ignoring_case (name asa) "ΑΣ"
  /\ suggestions "ΑΣ" [asa] = []
  /\ suggestions "ΑΣ" [asa] <> firstn 5 [asa].
Proof.
  split.
  - exists EmptyString, "ΑΣ", "Α". split; [reflexivity | apply same_text_refl].
  - split; [reflexivity | discriminate].
Qed.

(** ** Numbers *)

Module NumberFacts.
Import JsNumber.

Lemma round_pos_pos n : 0 < n -> 0 < round_pos n.
Proof.
  intros Hn. unfold round_pos.
  destruct (Z.ltb_spec (Z.log2 n) 53) as [_|He]; [exact Hn|].
  set (unit := 2 ^ (Z.log2 n - 52)).
  assert (Hunit : 0 < unit) by (apply Z.pow_pos_nonneg; lia).
  assert (Hle : unit <= n).
  { pose proof (Z.log2_spec n Hn) as [Hlo _].
    assert (unit <= 2 ^ Z.log2 n)
      by (apply Z.pow_le_mono_r; lia).
    lia. }
  assert (Hq : 0 < n / unit) by (apply Z.div_str_pos; lia).
  cbv zeta.
  destruct (2 * (n mod unit) <? unit); [nia|].
  destruct (unit <? 2 * (n mod unit)); [nia|].
  destruct (Z.even (n / unit)); nia.
Qed.

(** Below 2^53 every integer is a double. *)
Lemma ofInteger_small n : Z.abs n < 2 ^ 53 -> ofInteger n = Finite n.
Proof.
  intros Hn. unfold ofInteger.
  destruct (Z.eqb_spec n 0) as [->|Hne]; [reflexivity|].
  assert (Hpos : 0 < Z.abs n) by lia.
  assert (Hround : round_pos (Z.abs n) = Z.abs n).
  { unfold round_pos.
    destruct (Z.ltb_spec (Z.log2 (Z.abs n)) 53) as [_|He]; [reflexivity|].
    apply Z.log2_lt_pow2 in Hn; lia. }
  rewrite Hround.
  destruct (Z.leb_spec (2 ^ 1024) (Z.abs n)) as [Hbig|_].
  - assert (2 ^ 53 <= 2 ^ 1024) by (apply Z.pow_le_mono_r; lia). lia.
  - f_equal. lia.
Qed.

Lemma ofInteger_0 : ofInteger 0 = Finite 0.
Proof. reflexivity. Qed.

Lemma ofInteger_not_NaN n : ofInteger n <> NaN.
Proof.
  unfold ofInteger. destruct (n =? 0); [discriminate|].
  destruct (2 ^ 1024 <=? round_pos (Z.abs n)); [|discriminate].
  destruct (0 <? n); discriminate.
Qed.

(** Rounding keeps the sign. *)
Lemma ofInteger_sign n : sortVerdict (ofInteger n) <= 0 <-> n <= 0.
Proof.
  unfold ofInteger. destruct (Z.eqb_spec n 0) as [->|Hne]; [simpl; lia|].
  pose proof (round_pos_pos (Z.abs n) ltac:(lia)) as Hm.
  destruct (2 ^ 1024 <=? round_pos (Z.abs n)).
  - destruct (Z.ltb_spec 0 n); simpl; lia.
  - simpl. destruct (Z.sgn_spec n) as [[? ->]|[[? ->]|[? ->]]]; lia.
Qed.

Lemma ofInteger_nonneg n : 0 <= n -> le (Finite 0) (ofInteger n).
Proof.
  intros Hn. unfold ofInteger. destruct (Z.eqb_spec n 0) as [->|Hne]; [simpl; lia|].
  pose proof (round_pos_pos (Z.abs n) ltac:(lia)) as Hm.
  destruct (2 ^ 1024 <=? round_pos (Z.abs n)).
  - destruct (Z.ltb_spec 0 n); simpl; [exact I | lia].
  - simpl. rewrite Z.sgn_pos by lia. lia.
Qed.

(** [n || 0] changes nothing but [NaN]. *)
Lemma or_zero a : a <> NaN -> (if truthy a then a else Finite 0) = a.
Proof.
  destruct a as [| |z|]; simpl; try congruence.
  intros _. destruct (Z.eqb_spec z 0) as [->|_]; reflexivity.
Qed.

(** The comparison that [sort] reads off a difference. *)
Lemma verdict_sub_le a b :
  a <> NaN -> b <> NaN -> (sortVerdict (sub a b) <= 0 <-> le a b).
Proof.
  destruct a as [| |x|], b as [| |y|]; simpl; try congruence; intros _ _;
    try (split; [intros; exact I | lia]); try (split; [lia | intros []]).
  rewrite ofInteger_sign. lia.
Qed.

Lemma le_refl a : a <> NaN -> le a a.
Proof. destruct a; simpl; try congruence; intros _; [exact I | lia | exact I]. Qed.

Lemma le_total a b : a <> NaN -> b <> NaN -> le a b \/ le b a.
Proof.
  destruct a as [| |x|], b as [| |y|]; simpl; try congruence; intros _ _;
    try tauto. lia.
Qed.

Lemma le_trans a b c : le a b -> le b c -> le a c.
Proof.
  destruct a as [| |x|], b as [| |y|], c as [| |z|]; simpl; try tauto. lia.
Qed.

Lemma eqb_eq a b : eqb a b = true -> a = b.
Proof.
  destruct a as [| |x|], b as [| |y|]; simpl; try discriminate; try reflexivity.
  intros H. apply Z.eqb_eq in H. by subst.
Qed.
End NumberFacts.

(** ** The two parsers *)

Module ParseFacts.
Import JsString.

Lemma digit_not_space c : is_digit c = true -> is_space c = false.
Proof.
  unfold is_space. intros H.
  destruct (Ascii.eqb_spec c " ") as [->|_];
    [vm_compute in H; discriminate|].
  unfold is_digit in H.
  apply andb_prop in H as [H1 H2]. apply N.leb_le in H1.
  rewrite orb_false_r. apply andb_false_iff. right. apply N.leb_gt. lia.
Qed.

Lemma digit_not_sign c :
  is_digit c = true -> Ascii.eqb c "-" = false /\ Ascii.eqb c "+" = false.
Proof.
  intros H. split; apply Ascii.eqb_neq; intros ->; vm_compute in H;
    discriminate.
Qed.

(** On a text that starts with neither white space nor a sign, [parseInt]
    reads the leading digits. *)
Lemma parseInt_plain t :
  (forall c r, t = String c r ->
     is_space c = false /\ Ascii.eqb c "-" = false /\ Ascii.eqb c "+" = false) ->
  parseInt t = match leading_digits t with
               | EmptyString => JsNumber.NaN
               | ds => JsNumber.ofInteger (digits_value 0 ds)
               end.
Proof.
  intros Hhead. unfold parseInt. destruct t as [|c r]; [reflexivity|].
  destruct (Hhead c r eq_refl) as (Hs & Hm & Hp).
  cbn [skip_spaces]. rewrite Hs, Hm, Hp.
  destruct (leading_digits (String c r)); [reflexivity|].
  by rewrite Z.mul_1_l.
Qed.

Lemma strip_head s c r :
  strip_non_numeric s = String c r ->
  is_space c = false /\ Ascii.eqb c "-" = false /\ Ascii.eqb c "+" = false.
Proof.
  induction s as [|a s IH]; simpl; [discriminate|].
  destruct (is_digit a) eqn:Hd; simpl.
  - intros [= <- _]. split; [by apply digit_not_space | by apply digit_not_sign].
  - destruct (Ascii.eqb_spec a ".") as [->|_]; [|exact IH].
    intros [= <- _]. by vm_compute.
Qed.

Lemma leading_digits_idem s :
  leading_digits (leading_digits s) = leading_digits s.
Proof.
  induction s as [|a s IH]; simpl; [reflexivity|].
  destruct (is_digit a) eqn:Hd; simpl; [|reflexivity]. by rewrite Hd, IH.
Qed.

Lemma leading_digits_head s c r :
  leading_digits s = String c r -> is_digit c = true.
Proof.
  destruct s as [|a s]; simpl; [discriminate|].
  destruct (is_digit a) eqn:Hd; [|discriminate]. by intros [= <- _].
Qed.

(** The fee is the Number value for the integer written by the leading
    digits of the stripped text; what follows the first period is not
    read. *)
Lemma parseFee_value s :
  parseFee (Some s)
  = JsNumber.ofInteger (digits_value 0 (leading_digits (strip_non_numeric s))).
Proof.
  unfold parseFee. rewrite parseInt_plain by apply strip_head.
  destruct (leading_digits (strip_non_numeric s)) as [|c r]; [reflexivity|].
  apply NumberFacts.or_zero, NumberFacts.ofInteger_not_NaN.
Qed.

(** The experience is the Number value for the integer written by the
    leading digits. *)
Lemma parseExperience_value s :
  parseExperience (Some s) = JsNumber.ofInteger (digits_value 0 (leading_digits s)).
Proof.
  unfold parseExperience.
  destruct (leading_digits s) as [|c r] eqn:Hds; [reflexivity|].
  rewrite parseInt_plain.
  - rewrite <- Hds, leading_digits_idem, Hds. reflexivity.
  - intros c' r' [= <- <-]. apply leading_digits_head in Hds.
    split; [by apply digit_not_space | by apply digit_not_sign].
Qed.

Lemma parseExperience_no_digit s :
  (forall c r, s = String c r -> is_digit c = false) ->
  parseExperience (Some s) = JsNumber.Finite 0.
Proof.
  intros H. rewrite parseExperience_value.
  destruct s as [|c r]; [reflexivity|]. simpl.
  by rewrite (H c r eq_refl).
Qed.

Lemma parseFee_not_NaN fee : parseFee fee <> JsNumber.NaN.
Proof.
  destruct fee as [s|]; [|discriminate].
  rewrite parseFee_value. apply NumberFacts.ofInteger_not_NaN.
Qed.

Lemma parseExperience_not_NaN experience :
  parseExperience experience <> JsNumber.NaN.
Proof.
  destruct experience as [s|]; [|discriminate].
  rewrite parseExperience_value. apply NumberFacts.ofInteger_not_NaN.
Qed.

Example parseFee_rupees : parseFee (Some "₹ 500") = JsNumber.Finite 500.
Proof. reflexivity. Qed.

Example parseFee_thousands : parseFee (Some "₹ 1,500") = JsNumber.Finite 1500.
Proof. reflexivity. Qed.

Example parseFee_fraction : parseFee (Some "₹ 99.50") = JsNumber.Finite 99.
Proof. reflexivity. Qed.

Example parseFee_letters : parseFee (Some "abc") = JsNumber.Finite 0.
Proof. reflexivity. Qed.

Example parseFee_beyond_safe :
  parseFee (Some "9007199254740993") = JsNumber.Finite 9007199254740992.
Proof. reflexivity. Qed.

Example parseExperience_years :
  parseExperience (Some "13 Years of experience") = JsNumber.Finite 13.
Proof. reflexivity. Qed.

Example parseExperience_not_leading :
  parseExperience (Some "over 13 years") = JsNumber.Finite 0.
Proof. reflexivity. Qed.

Example parseExperience_twenty_nines :
  parseExperience (Some "99999999999999999999 Years")
  = JsNumber.Finite 100000000000000000000.
Proof. reflexivity. Qed.
End ParseFacts.

(** ** The sort stage *)

Lemma StronglySorted_weaken {A} (R R' : A -> A -> Prop) l :
  (forall a b, R a b -> R' a b) -> StronglySorted R l -> StronglySorted R' l.
Proof.
  intros HR. induction 1 as [|x l _ IH Hall]; constructor; [exact IH|].
  eapply Forall_impl; [exact Hall | apply HR].
Qed.

(** The comparison [sort] makes of two doctors under a sort key. *)
Lemma sortCompare_fees a b :
  JsNumber.sortVerdict (sortCompare "fees" a b) <= 0
  <-> JsNumber.le (parseFee (fees a)) (parseFee (fees b)).
Proof.
  apply NumberFacts.verdict_sub_le; apply ParseFacts.parseFee_not_NaN.
Qed.

Lemma sortCompare_experience a b :
  JsNumber.sortVerdict (sortCompare "experience" a b) <= 0
  <-> JsNumber.le (parseExperience (experience b))
        (parseExperience (experience a)).
Proof.
  apply NumberFacts.verdict_sub_le; apply ParseFacts.parseExperience_not_NaN.
Qed.

(** Under every sort key the comparator is total and transitive. *)
Lemma sortCompare_total key a b :
  0 < JsNumber.sortVerdict (sortCompare key a b) ->
  JsNumber.sortVerdict (sortCompare key b a) <= 0.
Proof.
  unfold sortCompare.
  destruct (String.eqb key "fees");
    [|destruct (String.eqb key "experience"); [|simpl; lia]];
    intros H; apply NumberFacts.verdict_sub_le;
    try apply ParseFacts.parseFee_not_NaN;
    try apply ParseFacts.parseExperience_not_NaN.
  - destruct (NumberFacts.le_total (parseFee (fees a)) (parseFee (fees b))
                (ParseFacts.parseFee_not_NaN _) (ParseFacts.parseFee_not_NaN _))
      as [Hle|Hle]; [|exact Hle].
    apply NumberFacts.verdict_sub_le in Hle;
      [lia | apply ParseFacts.parseFee_not_NaN..].
  - destruct (NumberFacts.le_total (parseExperience (experience b))
                (parseExperience (experience a))
                (ParseFacts.parseExperience_not_NaN _)
                (ParseFacts.parseExperience_not_NaN _))
      as [Hle|Hle]; [|exact Hle].
    apply NumberFacts.verdict_sub_le in Hle;
      [lia | apply ParseFacts.parseExperience_not_NaN..].
Qed.

Lemma sortCompare_trans key a b c :
  JsNumber.sortVerdict (sortCompare key a b) <= 0 ->
  JsNumber.sortVerdict (sortCompare key b c) <= 0 ->
  JsNumber.sortVerdict (sortCompare key a c) <= 0.
Proof.
  unfold sortCompare.
  destruct (String.eqb key "fees");
    [|destruct (String.eqb key "experience"); [|simpl; lia]];
    rewrite !NumberFacts.verdict_sub_le
      by first [apply ParseFacts.parseFee_not_NaN
               |apply ParseFacts.parseExperience_not_NaN];
    intros H1 H2.
  - by apply NumberFacts.le_trans with (parseFee (fees b)).
  - by apply NumberFacts.le_trans with (parseExperience (experience b)).
Qed.

Lemma sortStage_sorted key l :
  key <> "" ->
  StronglySorted
    (fun a b => JsNumber.sortVerdict (sortCompare key a b) <= 0)
    (sortStage (Some key) l).
Proof.
  intros Hne. unfold sortStage.
  apply JsStringFacts.truthy_iff in Hne. rewrite Hne.
  apply (array_sort_ordered
           (fun a b => JsNumber.sortVerdict (sortCompare key a b))
           (sortCompare_total key) (sortCompare_trans key)).
Qed.

Lemma sortStage_stable key (q : Doctor -> bool) l :
  (forall a b, q a = true -> q b = true ->
     JsNumber.sortVerdict (sortCompare key a b) <= 0) ->
  List.filter q (sortStage (Some key) l) = List.filter q l.
Proof.
  intros Hq. unfold sortStage.
  destruct (JsString.truthy key); [|reflexivity].
  by apply array_sort_stable.
Qed.

(** C3, as the code has it.  With sort key ["fees"] the list left by the
    filters is reordered stably, ascending in [parseFee]: the result is a
    permutation of it, sorted, and doctors of equal fee keep their order.
    [parseFee] reads the leading digits of the fee once every character
    that is neither a digit nor a period is deleted, so what follows the
    first period is not read, and yields the Number value for the integer
    they write, which is that integer below 2^53 and the nearest double
    beyond; without a leading digit, or without a fee, it is zero.  Fees
    ["₹ 500"], ["₹ 100"], ["abc"] come out as ["abc"], ["₹ 100"],
    ["₹ 500"]. *)
Theorem sort_by_fees (raw : list Doctor) (st : FilterState) :
  sortBy st = Some "fees" ->
  filteredDoctors raw st ≡ₚ filterStages raw st
  /\ StronglySorted
       (fun a b => JsNumber.le (parseFee (fees a)) (parseFee (fees b)))
       (filteredDoctors raw st)
  /\ (forall k,
        List.filter (fun d => JsNumber.eqb (parseFee (fees d)) k)
          (filteredDoctors raw st)
        = List.filter (fun d => JsNumber.eqb (parseFee (fees d)) k)
            (filterStages raw st))
  /\ (forall s, parseFee (Some s)
                = JsNumber.ofInteger
                    (JsString.digits_value 0
                       (JsString.leading_digits (JsString.strip_non_numeric s))))
  /\ (forall n, Z.abs n < 2 ^ 53 -> JsNumber.ofInteger n = JsNumber.Finite n)
  /\ parseFee None = JsNumber.Finite 0
  /\ map fees (filteredDoctors [anita; meera; karan] (withSort "fees" noFilter))
     = [Some "abc"; Some "₹ 100"; Some "₹ 500"].
Proof.
  intros Hkey. unfold filteredDoctors. rewrite Hkey.
  split; [apply sortStage_perm|].
  split.
  { eapply StronglySorted_weaken; [|apply sortStage_sorted; discriminate].
    intros a b. apply sortCompare_fees. }
  split.
  { intros k. apply sortStage_stable. intros a b Ha Hb.
    apply sortCompare_fees.
    apply NumberFacts.eqb_eq in Ha, Hb. rewrite Ha, Hb.
    apply NumberFacts.le_refl. rewrite <- Ha.
    apply ParseFacts.parseFee_not_NaN. }
  split; [apply ParseFacts.parseFee_value|].
  split; [apply NumberFacts.ofInteger_small|]. split; reflexivity.
Qed.

Lemma sort_by_fees_witness :
  map name (filteredDoctors [anita; meera; karan] (withSort "fees" noFilter))
  ≡ₚ map name (filterStages [anita; meera; karan] (withSort "fees" noFilter)).
Proof.
  apply Permutation_map.
  apply (proj1 (sort_by_fees [anita; meera; karan] (withSort "fees" noFilter)
                  eq_refl)).
Defined.

(** The claim C3 as worded fails: of two fees that differ after the decimal
    point the page does not put the smaller first. *)
Lemma sort_by_fees_ignores_fraction :
  filteredDoctors [ravi; sunil] (withSort "fees" noFilter) = [ravi; sunil]
  /\ ~ StronglySorted (fun a b => (specFeeValue (fees a) <= specFeeValue (fees b))%Q)
         (filteredDoctors [ravi; sunil] (withSort "fees" noFilter)).
Proof.
  split; [reflexivity|].
  change (filteredDoctors [ravi; sunil] (withSort "fees" noFilter))
    with [ravi; sunil].
  intros Hs. inversion Hs as [|? ? _ Hall]; subst.
  inversion Hall as [|? ? Hle _]; subst.
  vm_compute in Hle. by apply Hle.
Qed.

(** C4, as the code has it.  With sort key ["experience"] the list left by
    the filters is reordered stably, descending in [parseExperience]: the
    result is a permutation of it, sorted from most to least, and doctors
    of equal experience keep their order.  [parseExperience] is the Number
    value for the integer written by the digits the text starts with, which
    is that integer below 2^53 and the nearest double beyond, and zero when
    the text does not start with a digit or is missing.  Of
    ["5 Years of experience"] and ["13 Years of experience"] the second
    comes first. *)
Theorem sort_by_experience (raw : list Doctor) (st : FilterState) :
  sortBy st = Some "experience" ->
  filteredDoctors raw st ≡ₚ filterStages raw st
  /\ StronglySorted
       (fun a b => JsNumber.le (parseExperience (experience b))
                     (parseExperience (experience a)))
       (filteredDoctors raw st)
  /\ (forall k,
        List.filter (fun d => JsNumber.eqb (parseExperience (experience d)) k)
          (filteredDoctors raw st)
        = List.filter (fun d => JsNumber.eqb (parseExperience (experience d)) k)
            (filterStages raw st))
  /\ (forall s, parseExperience (Some s)
                = JsNumber.ofInteger
                    (JsString.digits_value 0 (JsString.leading_digits s)))
  /\ (forall n, Z.abs n < 2 ^ 53 -> JsNumber.ofInteger n = JsNumber.Finite n)
  /\ (forall s, (forall c r, s = String c r -> JsString.is_digit c = false) ->
                parseExperience (Some s) = JsNumber.Finite 0)
  /\ parseExperience None = JsNumber.Finite 0
  /\ map experience
       (filteredDoctors [anita; meera] (withSort "experience" noFilter))
     = [Some "13 Years of experience"; Some "5 Years of experience"].
Proof.
  intros Hkey. unfold filteredDoctors. rewrite Hkey.
  split; [apply sortStage_perm|].
  split.
  { eapply StronglySorted_weaken; [|apply sortStage_sorted; discriminate].
    intros a b. apply sortCompare_experience. }
  split.
  { intros k. apply sortStage_stable. intros a b Ha Hb.
    apply sortCompare_experience.
    apply NumberFacts.eqb_eq in Ha, Hb. rewrite Ha, Hb.
    apply NumberFacts.le_refl. rewrite <- Ha.
    apply ParseFacts.parseExperience_not_NaN. }
  split; [apply ParseFacts.parseExperience_value|].
  split; [apply NumberFacts.ofInteger_small|].
  split; [apply ParseFacts.parseExperience_no_digit|]. split; reflexivity.
Qed.

Lemma sort_by_experience_witness :
  map name (filteredDoctors [anita; meera; karan] (withSort "experience" noFilter))
  ≡ₚ map name
       (filterStages [anita; meera; karan] (withSort "experience" noFilter)).
Proof.
  apply Permutation_map.
  apply (proj1 (sort_by_experience [anita; meera; karan]
                  (withSort "experience" noFilter) eq_refl)).
Defined.

(** The claim C4 as worded fails beyond 2^53: twenty nines and a one with
    twenty zeros are read as the same number, so the two doctors tie and
    the one with the smaller leading integer stays first. *)
Lemma sort_by_experience_rounds :
  filteredDoctors [elder; eldest] (withSort "experience" noFilter)
  = [elder; eldest]
  /\ specExperienceValue (experience elder)
     < specExperienceValue (experience eldest)
  /\ ~ StronglySorted
         (fun a b => specExperienceValue (experience b)
                     <= specExperienceValue (experience a))
         (filteredDoctors [elder; eldest] (withSort "experience" noFilter)).
Proof.
  split; [reflexivity|]. split; [reflexivity|].
  change (filteredDoctors [elder; eldest] (withSort "experience" noFilter))
    with [elder; eldest].
  intros Hs. inversion Hs as [|? ? _ Hall]; subst.
  inversion Hall as [|? ? Hle _]; subst.
  vm_compute in Hle. by apply Hle.
Qed.

(** C10.  A non-empty sort key other than ["fees"] and ["experience"] makes
    the comparator answer 0 on every pair, and the sort stage returns the
    list of the filter stages as it is: no doctor is dropped and none is
    moved.  The same text as consultation mode empties the list. *)
Theorem sort_by_unknown_key (key : string) (raw : list Doctor) (st : FilterState) :
  key <> "" -> key <> "fees" -> key <> "experience" ->
  (forall a b, sortCompare key a b = JsNumber.Finite 0)
  /\ (forall l, sortStage (Some key) l = l)
  /\ (sortBy st = Some key -> filteredDoctors raw st = filterStages raw st)
  /\ (key <> "video" -> key <> "clinic" ->
      forall l, consultationStage (Some key) l = []).
Proof.
  intros Hne Hf He.
  assert (Hcmp : forall a b, sortCompare key a b = JsNumber.Finite 0).
  { intros a b. unfold sortCompare.
    apply String.eqb_neq in Hf, He. by rewrite Hf, He. }
  assert (Hsort : forall l, sortStage (Some key) l = l).
  { intros l. unfold sortStage.
    apply JsStringFacts.truthy_iff in Hne. rewrite Hne.
    apply array_sort_ties. intros a b. by rewrite Hcmp. }
  split; [exact Hcmp|]. split; [exact Hsort|]. split.
  - intros Hst. unfold filteredDoctors. rewrite Hst. apply Hsort.
  - intros Hv Hc l. by apply consultationStage_unknown.
Qed.

Lemma sort_by_unknown_key_witness :
  filteredDoctors [anita; meera; karan] (withSort "rating" noFilter)
  = filterStages [anita; meera; karan] (withSort "rating" noFilter).
Proof.
  apply (proj1 (proj2 (proj2
    (sort_by_unknown_key "rating" [anita; meera; karan]
       (withSort "rating" noFilter)
       ltac:(discriminate) ltac:(discriminate) ltac:(discriminate))))).
  reflexivity.
Defined.

(** ** Query strings *)

Module URLFacts.
Import JsString URLSearchParams.

Lemma append_assoc (a b c : string) :
  ((a ++ b) ++ c)%string = (a ++ (b ++ c))%string.
Proof. induction a as [|x a IH]; simpl; [reflexivity | by rewrite IH]. Qed.

Lemma string_forall_app P a b :
  string_forall P (a ++ b) = string_forall P a && string_forall P b.
Proof.
  induction a as [|x a IH]; simpl; [reflexivity|].
  by rewrite IH, andb_assoc.
Qed.

Ltac each_byte c :=
  destruct c as [[] [] [] [] [] [] [] []]; vm_compute; reflexivity.

(** The serializer writes no delimiter of its own accord. *)
Lemma encode_byte_plain c :
  string_forall (fun x => negb (is_delimiter x)) (encode_byte c) = true.
Proof. each_byte c. Qed.

Lemma encode_plain s :
  string_forall (fun x => negb (is_delimiter x)) (encode s) = true.
Proof.
  induction s as [|c s IH]; simpl; [reflexivity|].
  by rewrite string_forall_app, encode_byte_plain, IH.
Qed.

(** A byte written as it is, is neither a plus nor a percent sign. *)
Lemma unreserved_literal c :
  unreserved c = true -> Ascii.eqb c "+" = false /\ Ascii.eqb c "%" = false.
Proof. destruct c as [[] [] [] [] [] [] [] []]; vm_compute; auto. Qed.

(** The two hexadecimal digits of a byte are read back as that byte. *)
Lemma hex_digits_value c :
  Ascii.eqb (hex_digit (code c / 16)) "+" = false
  /\ Ascii.eqb (hex_digit (code c mod 16)) "+" = false
  /\ hex_value (hex_digit (code c / 16)) = Some (code c / 16)%N
  /\ hex_value (hex_digit (code c mod 16)) = Some (code c mod 16)%N
  /\ ascii_of_N (16 * (code c / 16) + code c mod 16) = c.
Proof. destruct c as [[] [] [] [] [] [] [] []]; vm_compute; auto. Qed.

(** Decoding undoes the encoding of one byte, whatever follows. *)
Lemma decode_encode_byte c rest :
  percent_decode (plus_to_space (encode_byte c ++ rest))
  = String c (percent_decode (plus_to_space rest)).
Proof.
  unfold encode_byte.
  destruct (Ascii.eqb_spec c " ") as [->|Hsp]; [reflexivity|].
  destruct (unreserved c) eqn:Hu.
  - destruct (unreserved_literal c Hu) as [Hplus Hpct].
    cbn [String.append plus_to_space percent_decode].
    by rewrite Hplus, Hpct.
  - destruct (hex_digits_value c) as (Hp1 & Hp2 & Hv1 & Hv2 & Hc).
    unfold percent_encode.
    cbn [String.append plus_to_space]. rewrite Hp1, Hp2.
    change (Ascii.eqb "%" "+") with false. cbv iota.
    cbn [percent_decode]. change (Ascii.eqb "%" "%") with true. cbv iota.
    by rewrite Hv1, Hv2, Hc.
Qed.

Lemma decode_encode s : percent_decode (plus_to_space (encode s)) = s.
Proof.
  induction s as [|c s IH]; simpl; [reflexivity|].
  by rewrite decode_encode_byte, IH.
Qed.

Lemma cut_equals_app a b :
  string_forall (fun x => negb (is_delimiter x)) a = true ->
  cut_equals (a ++ String "=" b) = (a, b).
Proof.
  induction a as [|x a IH]; simpl; [reflexivity|].
  intros H. apply andb_prop in H as [Hx Ha].
  unfold is_delimiter in Hx.
  destruct (Ascii.eqb x "=").
  - by rewrite orb_true_r in Hx.
  - by rewrite (IH Ha).
Qed.

Lemma split_plain a :
  string_forall (fun x => negb (Ascii.eqb x "&")) a = true ->
  split "&" a = [a].
Proof.
  induction a as [|x a IH]; simpl; [reflexivity|].
  intros H. apply andb_prop in H as [Hx Ha].
  destruct (Ascii.eqb x "&"); [discriminate|]. by rewrite (IH Ha).
Qed.

Lemma split_app a rest :
  string_forall (fun x => negb (Ascii.eqb x "&")) a = true ->
  split "&" (a ++ String "&" rest) = a :: split "&" rest.
Proof.
  induction a as [|x a IH]; simpl; [reflexivity|].
  intros H. apply andb_prop in H as [Hx Ha].
  destruct (Ascii.eqb x "&"); [discriminate|]. by rewrite (IH Ha).
Qed.

Lemma string_forall_weaken (P Q : ascii -> bool) s :
  (forall c, P c = true -> Q c = true) ->
  string_forall P s = true -> string_forall Q s = true.
Proof.
  intros HPQ. induction s as [|c s IH]; simpl; [reflexivity|].
  intros H. apply andb_prop in H as [Hc Hs]. by rewrite (HPQ c Hc), (IH Hs).
Qed.

Lemma serialize_pair_no_amp p :
  string_forall (fun x => negb (Ascii.eqb x "&")) (serialize_pair p) = true.
Proof.
  unfold serialize_pair. rewrite !string_forall_app. simpl.
  assert (Hw : forall s,
             string_forall (fun x => negb (Ascii.eqb x "&")) (encode s) = true).
  { intros s. eapply string_forall_weaken; [|apply encode_plain].
    intros c. unfold is_delimiter. by destruct (Ascii.eqb c "&"). }
  by rewrite !Hw.
Qed.

Lemma serialize_pair_truthy p : truthy (serialize_pair p) = true.
Proof. unfold serialize_pair. by destruct (encode (fst p)). Qed.

Lemma parse_serialize_pair p : parse_pair (serialize_pair p) = p.
Proof.
  destruct p as [n v]. unfold parse_pair, serialize_pair. simpl.
  rewrite cut_equals_app by apply encode_plain.
  by rewrite !decode_encode.
Qed.

(** Parsing undoes serializing, pair by pair. *)
Lemma parse_toString params : parse (toString params) = params.
Proof.
  unfold parse, toString.
  induction params as [|p params IH]; [reflexivity|].
  destruct params as [|q params].
  - simpl. rewrite split_plain by apply serialize_pair_no_amp. simpl.
    rewrite serialize_pair_truthy. cbn [map].
    by rewrite parse_serialize_pair.
  - change (String.concat "&" (map serialize_pair (p :: q :: params)))
      with (serialize_pair p
            ++ String "&" (String.concat "&" (map serialize_pair (q :: params))))%string.
    rewrite split_app by apply serialize_pair_no_amp.
    cbn [List.filter map]. rewrite serialize_pair_truthy.
    cbn [map]. rewrite parse_serialize_pair. f_equal. exact IH.
Qed.

Lemma serialize_pair_no_question p :
  string_forall (fun x => negb (Ascii.eqb x "?")) (serialize_pair p) = true.
Proof.
  unfold serialize_pair. rewrite !string_forall_app. simpl.
  assert (Hw : forall s,
             string_forall (fun x => negb (Ascii.eqb x "?")) (encode s) = true).
  { intros s. eapply string_forall_weaken; [|apply encode_plain].
    intros c. unfold is_delimiter.
    destruct (Ascii.eqb c "?"); [by rewrite !orb_true_r | reflexivity]. }
  by rewrite !Hw.
Qed.

(** A serialized list does not start with a question mark, so the
    constructor drops nothing of it. *)
Lemma ofString_toString params : ofString (toString params) = params.
Proof.
  unfold ofString.
  destruct (toString params) as [|c r] eqn:Hs; [by rewrite <- Hs, parse_toString|].
  assert (Hc : Ascii.eqb c "?" = false).
  { destruct params as [|p params]; [discriminate|].
    pose proof (serialize_pair_no_question p) as Hp.
    pose proof (serialize_pair_truthy p) as Ht.
    unfold toString in Hs. simpl in Hs.
    destruct (serialize_pair p) as [|c' r'] eqn:Hsp; [discriminate|].
    simpl in Hp. apply andb_prop in Hp as [Hc' _].
    destruct (map serialize_pair params); simpl in Hs;
      injection Hs as Hcc _; rewrite <- Hcc; by destruct (Ascii.eqb c' "?"). }
  by rewrite Hc, <- Hs, parse_toString.
Qed.

Example updateUrlParams_sample :
  updateUrlParams
    (mkFilterState "Dr. A&B" (Some "video") ["ENT"; "Dietitian/Nutritionist"]
       (Some "fees"))
  = "?search=Dr.+A%26B&consultation=video&specialty=ENT&specialty=Dietitian%2FNutritionist&sort=fees".
Proof. reflexivity. Qed.

Example updateUrlParams_none : updateUrlParams noFilter = "?".
Proof. reflexivity. Qed.

Lemma useSearchParams_updateUrlParams st :
  useSearchParams (updateUrlParams st) = buildParams st.
Proof.
  unfold useSearchParams, updateUrlParams, ofString. simpl.
  apply parse_toString.
Qed.
End URLFacts.

(** ** State to URL and back *)

Module SyncFacts.
Import JsString URLSearchParams.
Local Open Scope list_scope.

Lemma get_app name (l1 l2 : t) :
  get name (l1 ++ l2)
  = match get name l1 with Some v => Some v | None => get name l2 end.
Proof.
  induction l1 as [|p l1 IH]; simpl; [reflexivity|].
  by destruct (String.eqb (fst p) name).
Qed.

Lemma getAll_app name (l1 l2 : t) :
  getAll name (l1 ++ l2) = getAll name l1 ++ getAll name l2.
Proof. unfold getAll. by rewrite List.filter_app, map_app. Qed.

Lemma get_specialty_other name specs :
  String.eqb "specialty" name = false ->
  get name (map (pair "specialty") specs) = None.
Proof.
  intros Hne. induction specs as [|x specs IH]; [reflexivity|].
  cbn [map get fst]. by rewrite Hne.
Qed.

Lemma getAll_specialty specs :
  getAll "specialty" (map (pair "specialty") specs) = specs.
Proof.
  unfold getAll. induction specs as [|x specs IH]; simpl; [reflexivity|].
  by rewrite IH.
Qed.

Lemma getAll_specialty_other name specs :
  String.eqb "specialty" name = false ->
  getAll name (map (pair "specialty") specs) = [].
Proof.
  intros Hne. unfold getAll.
  induction specs as [|x specs IH]; [reflexivity|].
  cbn [map List.filter fst]. by rewrite Hne.
Qed.

(** [set] on a list without a pair of that name appends one. *)
Lemma set_fresh name value (l : t) :
  get name l = None -> set name value l = l ++ [(name, value)].
Proof.
  induction l as [|p l IH]; simpl; [reflexivity|].
  destruct (String.eqb (fst p) name); [discriminate|].
  intros H. by rewrite (IH H).
Qed.

Lemma fold_append specs (acc : t) :
  fold_left (fun acc spec => append "specialty" spec acc) specs acc
  = acc ++ map (pair "specialty") specs.
Proof.
  revert acc. induction specs as [|x specs IH]; intros acc; simpl.
  - by rewrite app_nil_r.
  - rewrite IH. unfold append. by rewrite <- app_assoc.
Qed.

(** The parameters are the active fields, in the order search,
    consultation, specialties, sort. *)
Lemma buildParams_fields st :
  buildParams st
  = (if truthy (searchTerm st) then [("search", searchTerm st)] else [])
    ++ activeField "consultation" (selectedConsultation st)
    ++ map (pair "specialty") (selectedSpecialties st)
    ++ activeField "sort" (sortBy st).
Proof.
  destruct st as [search mode specs key].
  unfold buildParams, activeField, unsetIfEmpty.
  cbn [searchTerm selectedConsultation selectedSpecialties sortBy].
  rewrite fold_append.
  destruct (truthy search) eqn:Hs;
    (destruct mode as [m|]; [destruct (truthy m) eqn:Hm|]);
    (destruct key as [k|]; [destruct (truthy k) eqn:Hk|]);
    unfold empty; simpl set;
    rewrite ?(set_fresh "sort" _ (map (pair "specialty") specs))
      by (by apply get_specialty_other);
    rewrite ?app_nil_r; reflexivity.
Qed.

Lemma initFromUrl_buildParams st : initFromUrl (buildParams st) = normalized st.
Proof.
  unfold initFromUrl. rewrite URLFacts.ofString_toString.
  rewrite buildParams_fields.
  destruct st as [search mode specs key].
  unfold normalized, activeField, unsetIfEmpty. simpl.
  rewrite !get_app, !getAll_app, getAll_specialty,
    !get_specialty_other by reflexivity.
  destruct search as [|c search];
    (destruct mode as [[|cm m]|]); (destruct key as [[|ck k]|]);
    simpl; rewrite ?app_nil_r; reflexivity.
Qed.

Lemma roundTrip_normalized st : roundTrip st = normalized st.
Proof.
  unfold roundTrip. rewrite URLFacts.useSearchParams_updateUrlParams.
  apply initFromUrl_buildParams.
Qed.
End SyncFacts.

(** C9, as the code has it.  The query string written for a filter state
    holds the active fields and nothing else: the search text when it is
    not empty, the consultation mode when it is set and not empty, one
    [specialty] pair for each selected specialty, the sort key when it is
    set and not empty.  Reading that query string back gives the same
    state, except that an empty consultation mode or sort key comes back
    unset; on the states where neither is the empty string the round trip
    is the identity. *)
Theorem url_round_trip (st : FilterState) :
  buildParams st
  = ((if JsString.truthy (searchTerm st) then [("search", searchTerm st)] else [])
     ++ activeField "consultation" (selectedConsultation st)
     ++ map (pair "specialty") (selectedSpecialties st)
     ++ activeField "sort" (sortBy st))%list
  /\ useSearchParams (updateUrlParams st) = buildParams st
  /\ roundTrip st = normalized st
  /\ (selectedConsultation st <> Some "" -> sortBy st <> Some "" ->
      roundTrip st = st).
Proof.
  split; [apply SyncFacts.buildParams_fields|].
  split; [apply URLFacts.useSearchParams_updateUrlParams|].
  split; [apply SyncFacts.roundTrip_normalized|].
  intros Hmode Hkey. rewrite SyncFacts.roundTrip_normalized.
  destruct st as [search mode specs key]. unfold normalized. simpl in *.
  f_equal.
  - destruct mode as [[|c m]|]; simpl; congruence.
  - destruct key as [[|c k]|]; simpl; congruence.
Qed.

Lemma url_round_trip_witness :
  roundTrip (mkFilterState "Dr. An" (Some "video") ["ENT"; "Dentist"] (Some "fees"))
  = mkFilterState "Dr. An" (Some "video") ["ENT"; "Dentist"] (Some "fees").
Proof.
  apply (proj2 (proj2 (proj2 (url_round_trip
    (mkFilterState "Dr. An" (Some "video") ["ENT"; "Dentist"] (Some "fees"))))));
    discriminate.
Defined.

(** The claim C9 as worded fails: the page opened with the query string
    [consultation=] holds the empty string as consultation mode, the URL
    written for that state has no [consultation] field, and reading it
    back leaves the mode unset. *)
Lemma round_trip_drops_empty_mode :
  initFromUrl (URLSearchParams.ofString "?consultation=")
  = mkFilterState "" (Some "") [] None
  /\ updateUrlParams (mkFilterState "" (Some "") [] None) = "?"
  /\ roundTrip (mkFilterState "" (Some "") [] None)
     <> mkFilterState "" (Some "") [] None.
Proof. split; [reflexivity|]. split; [reflexivity|]. discriminate. Qed.

(** ** Data fetching *)

Module FetchFacts.
Import DataFetch.

(** Whatever goes wrong, the message is stored, the list is not touched
    and the loading flag is cleared. *)
Lemma fetchData_failure outcome e st :
  tryBlock outcome = inl e ->
  fetchData outcome st = mkState (allDoctors st) false (Some (failureMessage e)).
Proof. intros H. unfold fetchData. by rewrite H. Qed.

Lemma fetchData_failure_on_mount outcome e :
  tryBlock outcome = inl e ->
  allDoctors (fetchData outcome initialState) = JArray []
  /\ error (fetchData outcome initialState) = Some (failureMessage e).
Proof. intros H. by rewrite (fetchData_failure _ _ _ H). Qed.

(** The three failures: rejected fetch, status that is not a success,
    body that does not parse. *)
Lemma tryBlock_fails outcome :
  (exists e, outcome = inl e)
  \/ (exists r, outcome = inr r /\ ok r = false)
  \/ (exists r e, outcome = inr r /\ json r = inl e) ->
  exists e, tryBlock outcome = inl e.
Proof.
  intros [[e ->] | [(r & -> & Hok) | (r & e & -> & Hjson)]]; simpl.
  - by exists e.
  - rewrite Hok. simpl. eauto.
  - destruct (ok r); simpl; [rewrite Hjson|]; eauto.
Qed.

Example http_500_message :
  error (fetchData (inr (mkResponse false 500 (inl OtherValue))) initialState)
  = Some "Failed to load doctor data. HTTP error! status: 500".
Proof. reflexivity. Qed.

(** A body that is an array is stored, and the error is cleared. *)
Lemma fetchData_success_array status items st :
  fetchData (inr (mkResponse true status (inr (JArray items)))) st
  = mkState (JArray items) false None.
Proof. reflexivity. Qed.

(** A falsy body is replaced by the empty array. *)
Lemma fetchData_success_falsy status data st :
  truthy data = false ->
  fetchData (inr (mkResponse true status (inr data))) st
  = mkState (JArray []) false None.
Proof. intros H. unfold fetchData. simpl. by rewrite H. Qed.

(** Any truthy body is stored as it is, array or not. *)
Lemma fetchData_success_truthy status data st :
  truthy data = true ->
  fetchData (inr (mkResponse true status (inr data))) st
  = mkState data false None.
Proof. intros H. unfold fetchData. simpl. by rewrite H. Qed.
End FetchFacts.

(** C1, where the code departs from it.  A response with a success status
    whose body is the object [{"doctors": []}] is stored as the doctor
    collection as it is: the collection then holds a value that is not an
    array, where the claim has the empty array stored. *)
Theorem fetchData_stores_non_array :
  DataFetch.allDoctors
    (DataFetch.fetchData DataFetch.wrappedResponse DataFetch.initialState)
  = DataFetch.wrappedBody
  /\ DataFetch.isArray DataFetch.wrappedBody = false
  /\ DataFetch.allDoctors
       (DataFetch.fetchData DataFetch.wrappedResponse DataFetch.initialState)
     <> DataFetch.JArray []
  /\ DataFetch.error
       (DataFetch.fetchData DataFetch.wrappedResponse DataFetch.initialState)
     = None.
Proof. repeat split; try reflexivity. discriminate. Qed.

(** * Further properties *)

(** ** The pipeline as a whole *)

Module PipelineFacts.

Lemma filter_all {A} (f : A -> bool) (l : list A) :
  (forall x, In x l -> f x = true) -> List.filter f l = l.
Proof.
  induction l as [|x l IH]; simpl; [reflexivity|]. intros H.
  rewrite (H x) by (by left). rewrite IH; [reflexivity|].
  intros y Hy. apply H. by right.
Qed.

Lemma filter_twice {A} (f g : A -> bool) (l : list A) :
  List.filter f (List.filter g l) = List.filter (fun x => g x && f x) l.
Proof.
  induction l as [|x l IH]; simpl; [reflexivity|].
  destruct (g x); simpl; [destruct (f x)|]; by rewrite IH.
Qed.

Lemma filter_swap {A} (f g : A -> bool) (l : list A) :
  List.filter f (List.filter g l) = List.filter g (List.filter f l).
Proof.
  rewrite !filter_twice. apply List.filter_ext. intros x. apply andb_comm.
Qed.

Lemma filter_sublist_impl {A} (f g : A -> bool) (l : list A) :
  (forall x, f x = true -> g x = true) ->
  List.filter f l `sublist_of` List.filter g l.
Proof.
  intros Hfg. induction l as [|x l IH]; simpl; [constructor|].
  destruct (f x) eqn:Hf.
  - rewrite (Hfg x Hf). by constructor.
  - destruct (g x); [by constructor | exact IH].
Qed.

(** Each stage is a filter by its own test. *)
Lemma searchStage_filter term l :
  searchStage term l = List.filter (searchKeeps term) l.
Proof.
  unfold searchStage, searchKeeps. destruct (JsString.truthy term); simpl.
  - reflexivity.
  - symmetry. by apply filter_all.
Qed.

Lemma consultationStage_filter mode l :
  consultationStage mode l = List.filter (consultationKeeps mode) l.
Proof.
  unfold consultationStage, consultationKeeps.
  destruct mode as [m|]; [destruct (JsString.truthy m)|];
    try reflexivity; symmetry; by apply filter_all.
Qed.

Lemma specialtyStage_filter sel l :
  specialtyStage sel l = List.filter (specialtyKeeps sel) l.
Proof.
  unfold specialtyStage, specialtyKeeps.
  destruct (0 <? length sel)%nat; simpl;
    [reflexivity | symmetry; by apply filter_all].
Qed.

Lemma filterStages_filter raw st :
  filterStages raw st = List.filter (visible st) raw.
Proof.
  unfold filterStages, visible.
  rewrite searchStage_filter, consultationStage_filter, specialtyStage_filter.
  rewrite !filter_twice. apply List.filter_ext. intros d.
  by rewrite andb_assoc.
Qed.

Lemma filter_sortStage (p : Doctor -> bool) key l :
  List.filter p (sortStage key l) = sortStage key (List.filter p l).
Proof.
  unfold sortStage. destruct key as [k|]; [|reflexivity].
  destruct (JsString.truthy k); [|reflexivity].
  apply (filter_array_sort
           (fun a b => JsNumber.sortVerdict (sortCompare k a b))
           (sortCompare_total k) (sortCompare_trans k)).
Qed.

Lemma sortStage_idem key l : sortStage key (sortStage key l) = sortStage key l.
Proof.
  unfold sortStage. destruct key as [k|]; [|reflexivity].
  destruct (JsString.truthy k) eqn:Hk; rewrite ?Hk; [|reflexivity].
  apply (array_sort_idem
           (fun a b => JsNumber.sortVerdict (sortCompare k a b))
           (sortCompare_total k) (sortCompare_trans k)).
Qed.

(** The test of the search stage, in the terms of the code. *)
Lemma searchKeeps_includes term d :
  searchKeeps term d
  = JsString.includes (JsString.toLowerCase (name d)) (JsString.toLowerCase term).
Proof.
  unfold searchKeeps, nameIncludes. destruct term as [|c term]; [|reflexivity].
  change (JsString.toLowerCase "") with "". by rewrite includes_empty.
Qed.

Lemma searchKeeps_iff term d :
  JsString.is_ascii term = true -> JsString.is_ascii (name d) = true ->
  (searchKeeps term d = true <-> contains_ignoring_case (name d) term).
Proof.
  intros Ht Hd. rewrite searchKeeps_includes.
  by apply JsStringFacts.includes_lower_iff.
Qed.

Lemma consultationKeeps_iff mode d :
  consultationKeeps mode d = true
  <-> (forall m, mode = Some m -> m <> "" ->
         (m = "video" /\ video_consult d = true)
         \/ (m = "clinic" /\ in_clinic d = true)).
Proof.
  unfold consultationKeeps. destruct mode as [m|].
  - destruct m as [|c m]; simpl.
    + split; [intros _ m' [= <-] Hne; congruence | reflexivity].
    + unfold consultationMatch. split.
      * intros H m' [= <-] _.
        destruct (String.eqb_spec (String c m) "video") as [->|_]; [by left|].
        destruct (String.eqb_spec (String c m) "clinic") as [->|_];
          [by right | discriminate].
      * intros H. destruct (H _ eq_refl ltac:(discriminate)) as [[-> Hv]|[-> Hc]];
          simpl; assumption.
  - split; [intros _ m [=] | reflexivity].
Qed.

Lemma specialtyKeeps_iff sel d :
  specialtyKeeps sel d = true
  <-> sel = [] \/ exists sp, In sp (specialities d) /\ In (Speciality.name sp) sel.
Proof.
  unfold specialtyKeeps. destruct sel as [|x sel]; simpl negb.
  - split; [by left | reflexivity].
  - rewrite orb_false_l, specialtyMatch_iff. split; [by right|].
    intros [H|H]; [discriminate | exact H].
Qed.

(** X1.  A doctor is shown exactly when it was fetched and passes the three
    filters: its lowered name contains the lowered search text, which for
    a search text and a name made of ASCII characters is to say that the
    name contains the search text up to case; it offers the selected
    consultation mode when a non-empty mode is set; and one of its
    specialties is selected when any is.  The sort key plays no part. *)
Theorem shown_iff (raw : list Doctor) (st : FilterState) (d : Doctor) :
  JsString.is_ascii (searchTerm st) = true ->
  JsString.is_ascii (name d) = true ->
  (In d (filteredDoctors raw st)
   <-> In d raw
       /\ contains_ignoring_case (name d) (searchTerm st)
       /\ (forall m, selectedConsultation st = Some m -> m <> "" ->
             (m = "video" /\ video_consult d = true)
             \/ (m = "clinic" /\ in_clinic d = true))
       /\ (selectedSpecialties st = []
           \/ exists sp, In sp (specialities d)
                         /\ In (Speciality.name sp) (selectedSpecialties st))).
Proof.
  intros Ht Hd. unfold filteredDoctors.
  assert (Hperm : In d (sortStage (sortBy st) (filterStages raw st))
                  <-> In d (filterStages raw st)).
  { split; apply Permutation_in;
      [apply sortStage_perm | symmetry; apply sortStage_perm]. }
  rewrite Hperm, filterStages_filter, filter_In. unfold visible.
  rewrite !andb_true_iff, (searchKeeps_iff _ _ Ht Hd), consultationKeeps_iff,
    specialtyKeeps_iff.
  tauto.
Qed.

Lemma shown_iff_witness :
  In karan (filteredDoctors [anita; meera; karan]
              (mkFilterState "AN" (Some "video") ["ENT"] (Some "fees"))).
Proof.
  apply (proj2 (shown_iff [anita; meera; karan]
                  (mkFilterState "AN" (Some "video") ["ENT"] (Some "fees"))
                  karan eq_refl eq_refl)).
  split; [right; right; by left|]. split.
  - exists "Kar", "an", "". split; [reflexivity|].
    apply same_text_cons; [right; exists 0%N; by split|].
    apply same_text_cons; [right; exists 13%N; by split|]. constructor.
  - split.
    + intros m [= <-] _. left. by split.
    + right. exists (Speciality.mk "ENT"). split; by left.
Defined.

(** X2.  The three filter stages can be applied in any order: the list
    they leave is the same. *)
Theorem filter_order_irrelevant (term : string) (mode : option string)
    (sel : list string) (l : list Doctor) :
  specialtyStage sel (consultationStage mode (searchStage term l))
  = searchStage term (consultationStage mode (specialtyStage sel l))
  /\ specialtyStage sel (consultationStage mode (searchStage term l))
     = consultationStage mode (specialtyStage sel (searchStage term l))
  /\ specialtyStage sel (consultationStage mode (searchStage term l))
     = specialtyStage sel (searchStage term (consultationStage mode l)).
Proof.
  repeat rewrite ?searchStage_filter, ?consultationStage_filter,
    ?specialtyStage_filter.
  repeat split.
  - rewrite (filter_swap (specialtyKeeps sel)).
    rewrite (filter_swap (specialtyKeeps sel)).
    rewrite (filter_swap (consultationKeeps mode) (searchKeeps term)).
    reflexivity.
  - apply filter_swap.
  - f_equal. apply filter_swap.
Qed.

(** X3.  Running the pipeline on its own output, with the same filter
    state, changes nothing. *)
Theorem filteredDoctors_idempotent (raw : list Doctor) (st : FilterState) :
  filteredDoctors (filteredDoctors raw st) st = filteredDoctors raw st.
Proof.
  unfold filteredDoctors.
  rewrite (filterStages_filter (sortStage _ _)), filter_sortStage.
  rewrite (filterStages_filter raw), filter_twice.
  rewrite sortStage_idem. f_equal.
  apply List.filter_ext. intros d. by destruct (visible st d).
Qed.

(** X4.  Sorting the whole raw list first and filtering afterwards shows
    the same list as the page, which filters first and sorts last. *)
Theorem sort_before_filter (raw : list Doctor) (st : FilterState) :
  filterStages (sortStage (sortBy st) raw) st = filteredDoctors raw st.
Proof.
  unfold filteredDoctors.
  rewrite (filterStages_filter (sortStage _ _)), filter_sortStage.
  by rewrite filterStages_filter.
Qed.

(** X5.  Typing further ASCII characters after an ASCII search text never
    brings a doctor back: the list for the longer text is a subsequence of
    the list for the shorter one. *)
Theorem search_narrows (term more : string) (l : list Doctor) :
  JsString.is_ascii term = true -> JsString.is_ascii more = true ->
  searchStage (term ++ more) l `sublist_of` searchStage term l.
Proof.
  intros Ht Hm. rewrite !searchStage_filter. apply filter_sublist_impl.
  intros d. rewrite !searchKeeps_includes.
  assert (Hboth : JsString.is_ascii (term ++ more) = true)
    by (by rewrite JsStringFacts.is_ascii_app, Ht, Hm).
  rewrite (JsStringFacts.toLowerCase_ascii _ Hboth),
    (JsStringFacts.toLowerCase_ascii _ Ht), JsStringFacts.lowerAscii_app.
  rewrite !JsStringFacts.includes_iff.
  intros (pre & post & Hd).
  exists pre, (JsString.lowerAscii more ++ post)%string.
  by rewrite Hd, !URLFacts.append_assoc.
Qed.

Lemma search_narrows_witness :
  searchStage ("an" ++ "i") [anita; meera; karan]
  `sublist_of` searchStage "an" [anita; meera; karan].
Proof.
  apply (search_narrows "an" "i" [anita; meera; karan]); reflexivity.
Defined.
End PipelineFacts.

(** ** More on the two parsers *)

Module ParseMore.
Import JsString.

Lemma digit_value_range c : is_digit c = true -> 0 <= digit_value c <= 9.
Proof.
  unfold is_digit, digit_value. intros H. apply andb_prop in H as [H1 H2].
  apply N.leb_le in H1, H2. lia.
Qed.

Lemma leading_digits_all s : string_forall is_digit (leading_digits s) = true.
Proof.
  induction s as [|c s IH]; simpl; [reflexivity|].
  destruct (is_digit c) eqn:Hc; simpl; [by rewrite Hc, IH | reflexivity].
Qed.

Lemma digits_value_nonneg s acc :
  string_forall is_digit s = true -> 0 <= acc -> 0 <= digits_value acc s.
Proof.
  revert acc. induction s as [|c s IH]; simpl; intros acc H Hacc; [exact Hacc|].
  apply andb_prop in H as [Hc Hs]. apply IH; [exact Hs|].
  pose proof (digit_value_range c Hc). lia.
Qed.

Lemma strip_app a b :
  strip_non_numeric (a ++ b)
  = (strip_non_numeric a ++ strip_non_numeric b)%string.
Proof.
  induction a as [|c a IH]; simpl; [reflexivity|].
  destruct (is_digit c || Ascii.eqb c "."); simpl; by rewrite IH.
Qed.

(** X6.  Neither parser ever yields a negative number: a minus sign in a
    fee is stripped like any other symbol, and an experience that starts
    with one has no leading digit.  Under either sort a doctor whose text
    cannot be read counts as zero, the least value there is. *)
Theorem parsers_nonnegative (fee experience : option string) :
  JsNumber.le (JsNumber.Finite 0) (parseFee fee)
  /\ JsNumber.le (JsNumber.Finite 0) (parseExperience experience).
Proof.
  split.
  - destruct fee as [s|]; [|simpl; lia].
    rewrite ParseFacts.parseFee_value.
    apply NumberFacts.ofInteger_nonneg.
    apply digits_value_nonneg; [apply leading_digits_all | lia].
  - destruct experience as [s|]; [|simpl; lia].
    rewrite ParseFacts.parseExperience_value.
    apply NumberFacts.ofInteger_nonneg.
    apply digits_value_nonneg; [apply leading_digits_all | lia].
Qed.

(** X7.  A character that is neither a digit nor a period does not count,
    wherever it stands in the fee: currency signs, spaces and thousands
    separators can be inserted or removed without changing the number
    read. *)
Theorem parseFee_ignores_symbols (a b : string) (c : ascii) :
  is_digit c = false -> c <> "."%char ->
  parseFee (Some (a ++ String c b)) = parseFee (Some (a ++ b)).
Proof.
  intros Hd Hp. unfold parseFee. rewrite !strip_app. simpl.
  apply Ascii.eqb_neq in Hp. by rewrite Hd, Hp.
Qed.

Lemma parseFee_ignores_symbols_witness :
  parseFee (Some "₹ 1,500") = parseFee (Some "₹ 1500").
Proof.
  apply (parseFee_ignores_symbols "₹ 1" "500" ","); [reflexivity | discriminate].
Defined.
End ParseMore.

(** ** The specialty checkboxes *)

Module SpecialtyFacts.

Lemma unchecked_In value prev x :
  In x (handleSpecialtyChange value false prev) <-> In x prev /\ x <> value.
Proof.
  unfold handleSpecialtyChange. rewrite filter_In, negb_true_iff.
  by rewrite String.eqb_neq.
Qed.

(** X8.  Unchecking a specialty removes every copy of it from the
    selection and keeps the rest in order; checking one puts it at the
    end; the checkbox then shows the new state; unchecking directly after
    checking a specialty that was not selected restores the selection. *)
Theorem specialty_checkbox (value : string) (prev : list string) :
  ~ In value (handleSpecialtyChange value false prev)
  /\ (forall x, x <> value ->
        (In x (handleSpecialtyChange value false prev) <-> In x prev))
  /\ handleSpecialtyChange value false prev `sublist_of` prev
  /\ handleSpecialtyChange value true prev = (prev ++ [value])%list
  /\ array_includes (handleSpecialtyChange value true prev) value = true
  /\ array_includes (handleSpecialtyChange value false prev) value = false
  /\ (~ In value prev ->
      handleSpecialtyChange value false (handleSpecialtyChange value true prev)
      = prev).
Proof.
  split; [rewrite unchecked_In; tauto|].
  split; [intros x Hx; rewrite unchecked_In; tauto|].
  split; [apply filter_sublist|]. split; [reflexivity|].
  split; [apply array_includes_iff, in_or_app; right; by left|].
  split.
  { destruct (array_includes _ value) eqn:H; [|reflexivity].
    apply array_includes_iff, unchecked_In in H. tauto. }
  intros Hfresh. unfold handleSpecialtyChange.
  rewrite List.filter_app. simpl. rewrite String.eqb_refl. simpl.
  rewrite app_nil_r. apply PipelineFacts.filter_all.
  intros x Hx. apply negb_true_iff, String.eqb_neq. by intros ->.
Qed.

Lemma specialty_checkbox_witness :
  handleSpecialtyChange "ENT" false
    (handleSpecialtyChange "ENT" true ["Dentist"])
  = ["Dentist"].
Proof.
  apply (proj2 (proj2 (proj2 (proj2 (proj2 (proj2
           (specialty_checkbox "ENT" ["Dentist"]))))))).
  intros [H|[]]. discriminate.
Defined.

Lemma specialtyStage_mono sel sel' l :
  sel' <> [] -> (forall x, In x sel' -> In x sel) ->
  specialtyStage sel' l `sublist_of` specialtyStage sel l.
Proof.
  intros Hne Hsub. rewrite !PipelineFacts.specialtyStage_filter.
  apply PipelineFacts.filter_sublist_impl. intros d.
  rewrite !PipelineFacts.specialtyKeeps_iff.
  intros [->|(sp & Hsp & Hin)]; [congruence|].
  right. exists sp. split; [exact Hsp | by apply Hsub].
Qed.

(** X9.  Checking a further specialty while some are selected never takes
    a doctor off the list, and unchecking one while others stay selected
    never adds one.  Unchecking the last selected specialty lifts the
    filter: every doctor it is given is kept. *)
Theorem specialty_selection_monotone (value : string) (sel : list string)
    (l : list Doctor) :
  (sel <> [] ->
   specialtyStage sel l
   `sublist_of` specialtyStage (handleSpecialtyChange value true sel) l)
  /\ (handleSpecialtyChange value false sel <> [] ->
      specialtyStage (handleSpecialtyChange value false sel) l
      `sublist_of` specialtyStage sel l)
  /\ (handleSpecialtyChange value false sel = [] ->
      specialtyStage (handleSpecialtyChange value false sel) l = l).
Proof.
  split; [|split].
  - intros Hne. apply specialtyStage_mono; [exact Hne|].
    intros x Hx. unfold handleSpecialtyChange. apply in_or_app. by left.
  - intros Hne. apply specialtyStage_mono; [exact Hne|].
    intros x Hx. by apply unchecked_In in Hx as [Hx _].
  - intros ->. reflexivity.
Qed.

Lemma specialty_selection_monotone_witness :
  specialtyStage ["ENT"] [anita; meera; karan]
  `sublist_of`
  specialtyStage (handleSpecialtyChange "Cardiologist" true ["ENT"])
    [anita; meera; karan].
Proof.
  apply (proj1 (specialty_selection_monotone "Cardiologist" ["ENT"]
                  [anita; meera; karan])).
  discriminate.
Defined.

(** X19.  Only the set of selected names matters to the specialty stage:
    the order in which the boxes were ticked, and a name repeated in the
    URL, make no difference to the doctors kept. *)
Theorem specialty_selection_as_set (sel sel' : list string) (l : list Doctor) :
  (forall x, In x sel <-> In x sel') ->
  specialtyStage sel l = specialtyStage sel' l.
Proof.
  intros Hsame. rewrite !PipelineFacts.specialtyStage_filter.
  apply List.filter_ext. intros d.
  assert (Hiff : specialtyKeeps sel d = true <-> specialtyKeeps sel' d = true).
  { rewrite !PipelineFacts.specialtyKeeps_iff. split.
    - intros [->|(sp & Hsp & Hin)].
      + left. destruct sel' as [|x sel']; [reflexivity|].
        destruct (proj2 (Hsame x) ltac:(by left)).
      + right. exists sp. split; [exact Hsp | by apply Hsame].
    - intros [->|(sp & Hsp & Hin)].
      + left. destruct sel as [|x sel]; [reflexivity|].
        destruct (proj1 (Hsame x) ltac:(by left)).
      + right. exists sp. split; [exact Hsp | by apply Hsame]. }
  destruct (specialtyKeeps sel d), (specialtyKeeps sel' d); try reflexivity.
  - symmetry. by apply Hiff.
  - by apply Hiff.
Qed.

Lemma specialty_selection_as_set_witness :
  specialtyStage ["ENT"; "Dentist"; "ENT"] [anita; meera; karan]
  = specialtyStage ["Dentist"; "ENT"] [anita; meera; karan].
Proof.
  apply (specialty_selection_as_set ["ENT"; "Dentist"; "ENT"] ["Dentist"; "ENT"]).
  intros x. simpl. tauto.
Defined.
End SpecialtyFacts.

(** ** The specialties offered in the panel *)

Module PanelFacts.

Lemma set_add_In x members y :
  In y (set_add x members) <-> In y members \/ y = x.
Proof.
  unfold set_add. destruct (array_includes members x) eqn:H.
  - apply array_includes_iff in H. split; [by left|]. intros [Hy| ->]; auto.
  - rewrite in_app_iff. simpl. intuition (subst; auto).
Qed.

Lemma set_add_NoDup x members : NoDup members -> NoDup (set_add x members).
Proof.
  intros Hnd. unfold set_add. destruct (array_includes members x) eqn:H;
    [exact Hnd|].
  apply NoDup_app. split; [exact Hnd|]. split.
  - intros y Hy Hx. apply list_elem_of_In in Hy. apply list_elem_of_In in Hx.
    destruct Hx as [<-|[]].
    apply array_includes_iff in Hy. congruence.
  - apply NoDup_singleton.
Qed.

Lemma fold_set_add_In names members y :
  In y (fold_left (fun m x => set_add x m) names members)
  <-> In y members \/ In y names.
Proof.
  revert members. induction names as [|x names IH]; intros members; simpl.
  - tauto.
  - rewrite IH, set_add_In. intuition (subst; auto).
Qed.

Lemma fold_set_add_NoDup names members :
  NoDup members -> NoDup (fold_left (fun m x => set_add x m) names members).
Proof.
  revert members. induction names as [|x names IH]; intros members Hnd; simpl;
    [exact Hnd|].
  by apply IH, set_add_NoDup.
Qed.

Lemma inner_loop specs members :
  fold_left (fun m specObj => set_add (Speciality.name specObj) m) specs members
  = fold_left (fun m x => set_add x m) (map Speciality.name specs) members.
Proof.
  revert members. induction specs as [|sp specs IH]; intros members; simpl;
    [reflexivity | apply IH].
Qed.

(** The nested loops add the names one after the other. *)
Lemma collect_flat docs members :
  fold_left
    (fun m doctor =>
       fold_left (fun m specObj => set_add (Speciality.name specObj) m)
         (specialities doctor) m)
    docs members
  = fold_left (fun m x => set_add x m) (allSpecialtyNames docs) members.
Proof.
  revert members. induction docs as [|d docs IH]; intros members; simpl;
    [reflexivity|].
  rewrite fold_left_app, IH. f_equal. apply inner_loop.
Qed.

Lemma collectSpecialties_In docs x :
  In x (collectSpecialties docs) <-> In x (allSpecialtyNames docs).
Proof.
  unfold collectSpecialties. rewrite collect_flat, fold_set_add_In.
  simpl. tauto.
Qed.

Lemma collectSpecialties_NoDup docs : NoDup (collectSpecialties docs).
Proof.
  unfold collectSpecialties. rewrite collect_flat.
  apply fold_set_add_NoDup. constructor.
Qed.

Lemma allSpecialtyNames_In docs x :
  In x (allSpecialtyNames docs)
  <-> exists d sp, In d docs /\ In sp (specialities d) /\ Speciality.name sp = x.
Proof.
  unfold allSpecialtyNames. rewrite in_flat_map. split.
  - intros (d & Hd & Hx). apply in_map_iff in Hx as (sp & Hsp & Hin).
    exists d, sp. auto.
  - intros (d & sp & Hd & Hsp & Hx). exists d. split; [exact Hd|].
    apply in_map_iff. exists sp. auto.
Qed.

Section WithCollation.
Variable localeCompare : string -> string -> Z.

Lemma uniqueSpecialties_In docs x :
  In x (uniqueSpecialties localeCompare docs)
  <-> exists d sp, In d docs /\ In sp (specialities d) /\ Speciality.name sp = x.
Proof.
  rewrite <- allSpecialtyNames_In, <- collectSpecialties_In.
  unfold uniqueSpecialties.
  split; apply Permutation_in;
    [apply array_sort_perm | symmetry; apply array_sort_perm].
Qed.

(** X10.  The panel offers every specialty name that some fetched doctor
    has, each exactly once, and no other name. *)
Theorem panel_lists_each_specialty_once (allDoctors : list Doctor) :
  NoDup (uniqueSpecialties localeCompare allDoctors)
  /\ (forall x, In x (uniqueSpecialties localeCompare allDoctors)
                <-> exists d sp, In d allDoctors /\ In sp (specialities d)
                                 /\ Speciality.name sp = x).
Proof.
  split; [|apply uniqueSpecialties_In].
  unfold uniqueSpecialties. rewrite array_sort_perm.
  apply collectSpecialties_NoDup.
Qed.

(** X11.  Every checkbox of the panel leads somewhere: a name is offered
    exactly when selecting it alone leaves at least one of the fetched
    doctors. *)
Theorem panel_option_matches_a_doctor (allDoctors : list Doctor) (x : string) :
  In x (uniqueSpecialties localeCompare allDoctors)
  <-> specialtyStage [x] allDoctors <> [].
Proof.
  rewrite uniqueSpecialties_In. split.
  - intros (d & sp & Hd & Hsp & Hx) Hnil.
    assert (Hin : In d (specialtyStage [x] allDoctors)).
    { unfold specialtyStage. simpl. apply filter_In. split; [exact Hd|].
      apply specialtyMatch_iff. exists sp. split; [exact Hsp|]. by left. }
    rewrite Hnil in Hin. destruct Hin.
  - intros Hne. destruct (specialtyStage [x] allDoctors) as [|d rest] eqn:Hs;
      [congruence|].
    assert (Hin : In d (specialtyStage [x] allDoctors)) by (rewrite Hs; by left).
    unfold specialtyStage in Hin. simpl in Hin.
    apply filter_In in Hin as [Hd Hm].
    apply specialtyMatch_iff in Hm as (sp & Hsp & [Hx|[]]).
    exists d, sp. auto.
Qed.

Hypothesis collation_total :
  forall a b, 0 < localeCompare a b -> localeCompare b a <= 0.
Hypothesis collation_trans :
  forall a b c, localeCompare a b <= 0 -> localeCompare b c <= 0 ->
                localeCompare a c <= 0.

Lemma specialtyCompare_total a b :
  0 < specialtyCompare localeCompare a b ->
  specialtyCompare localeCompare b a <= 0.
Proof.
  unfold specialtyCompare.
  destruct (indexOf testIdOrder a), (indexOf testIdOrder b);
    try lia; apply collation_total.
Qed.

Lemma specialtyCompare_trans a b c :
  specialtyCompare localeCompare a b <= 0 ->
  specialtyCompare localeCompare b c <= 0 ->
  specialtyCompare localeCompare a c <= 0.
Proof.
  unfold specialtyCompare.
  destruct (indexOf testIdOrder a), (indexOf testIdOrder b),
    (indexOf testIdOrder c); try lia; apply collation_trans.
Qed.

(** X12.  When the collation is a total and transitive comparison, the
    panel is in order: the names of the preferred list come first, in the
    order of that list, and the other names follow, in collation order. *)
Theorem panel_order (allDoctors : list Doctor) :
  StronglySorted (panelBefore localeCompare)
    (uniqueSpecialties localeCompare allDoctors).
Proof.
  eapply StronglySorted_weaken;
    [|apply (array_sort_ordered (specialtyCompare localeCompare)
               specialtyCompare_total specialtyCompare_trans)].
  intros a b. unfold specialtyCompare, panelBefore.
  destruct (indexOf testIdOrder a), (indexOf testIdOrder b); lia.
Qed.
End WithCollation.

(** A collation for the examples: shorter names first. *)
Lemma panel_order_witness :
  uniqueSpecialties
    (fun a b => Z.of_nat (String.length a) - Z.of_nat (String.length b))
    [anita; meera; karan;
     sampleDoctor "6" "Zoya" ["Yoga"; "ENT"; "Acupuncture"] None None true true]
  = ["Dentist"; "ENT"; "Cardiologist"; "Yoga"; "Acupuncture"]
  /\ StronglySorted
       (panelBefore
          (fun a b => Z.of_nat (String.length a) - Z.of_nat (String.length b)))
       (uniqueSpecialties
          (fun a b => Z.of_nat (String.length a) - Z.of_nat (String.length b))
          [anita; meera; karan;
           sampleDoctor "6" "Zoya" ["Yoga"; "ENT"; "Acupuncture"] None None
             true true]).
Proof.
  split; [reflexivity|].
  apply panel_order; intros; lia.
Defined.
End PanelFacts.

(** ** The search box *)

Module SearchBoxFacts.

Lemma append_nil_r s : (s ++ "")%string = s.
Proof. induction s as [|c s IH]; simpl; [reflexivity | by rewrite IH]. Qed.

Lemma includes_self s : JsString.includes s s = true.
Proof.
  apply JsStringFacts.includes_iff. exists EmptyString, EmptyString.
  simpl. by rewrite append_nil_r.
Qed.

Lemma firstn_incl {A} (n : nat) (l : list A) x : In x (firstn n l) -> In x l.
Proof.
  revert l. induction n as [|n IH]; intros [|y l]; simpl; try tauto.
  intros [->|H]; auto.
Qed.

Lemma suggestions_In term raw d :
  In d (suggestions term raw) ->
  In d raw /\ nameIncludes (JsString.toLowerCase term) d = true.
Proof.
  unfold suggestions, slice0.
  destruct ((0 <? String.length term)%nat && (0 <? length raw)%nat);
    [|intros []].
  intros Hd. apply firstn_incl in Hd. by apply filter_In in Hd.
Qed.

Lemma firstn_nonempty {A} (n : nat) (l : list A) :
  l <> [] -> firstn (S n) l <> [].
Proof. destruct l; [congruence | discriminate]. Qed.

(** X13.  A suggested doctor is one of the doctors the search stage keeps
    for the text typed, and after a click on the suggestion, which makes
    the doctor's name the search text, the search stage still keeps that
    doctor. *)
Theorem suggestion_is_found (term : string) (raw : list Doctor) (d : Doctor) :
  In d (suggestions term raw) ->
  In d (searchStage term raw) /\ In d (searchStage (name d) raw).
Proof.
  intros Hd. apply suggestions_In in Hd as [Hraw Hmatch].
  rewrite !PipelineFacts.searchStage_filter, !filter_In. split.
  - split; [exact Hraw|]. unfold searchKeeps. rewrite Hmatch. apply orb_true_r.
  - split; [exact Hraw|]. unfold searchKeeps, nameIncludes.
    rewrite includes_self. apply orb_true_r.
Qed.

Lemma suggestion_is_found_witness :
  In karan (searchStage "an" [anita; meera; karan])
  /\ In karan (searchStage (name karan) [anita; meera; karan]).
Proof.
  apply (suggestion_is_found "an" [anita; meera; karan] karan).
  vm_compute. right. by left.
Defined.

(** X14.  A click on a suggestion empties the suggestion list, but the
    click also changes the search text, so the suggestions effect runs
    again and fills the list: when the doctor clicked is among the fetched
    doctors and its name is not what the search box already held, the list
    is not empty after the render.  A submit leaves the search text as it
    is, and the list stays empty. *)
Theorem suggestions_after_click (allDoctors : list Doctor) (st : SearchBox.t)
    (d : Doctor) :
  In d allDoctors -> name d <> "" -> name d <> SearchBox.searchTerm st ->
  SearchBox.suggestions (SearchBox.handleSuggestionClick (name d) st) = []
  /\ SearchBox.suggestions
       (SearchBox.afterRender allDoctors st
          (SearchBox.handleSuggestionClick (name d) st))
     <> []
  /\ SearchBox.suggestions
       (SearchBox.afterRender allDoctors st (SearchBox.handleSearchSubmit st))
     = [].
Proof.
  intros Hd Hname Hchanged. split; [reflexivity|]. split.
  - unfold SearchBox.afterRender, SearchBox.handleSuggestionClick.
    cbn [SearchBox.searchTerm].
    assert (Hne : String.eqb (SearchBox.searchTerm st) (name d) = false)
      by (apply String.eqb_neq; congruence).
    rewrite Hne. cbn [SearchBox.suggestionsEffect SearchBox.suggestions
                        SearchBox.searchTerm SearchBox.computed].
    unfold suggestions, slice0.
    destruct (name d) as [|c rest] eqn:Hn; [congruence|].
    destruct allDoctors as [|d0 docs]; [destruct Hd|].
    cbn [String.length length Nat.ltb Nat.leb andb].
    apply firstn_nonempty. intros Hnil.
    assert (Hin : In d (List.filter
                          (nameIncludes (JsString.toLowerCase (String c rest)))
                          (d0 :: docs))).
    { apply filter_In. split; [exact Hd|]. unfold nameIncludes.
      rewrite Hn. apply includes_self. }
    rewrite Hnil in Hin. destruct Hin.
  - unfold SearchBox.afterRender, SearchBox.handleSearchSubmit.
    cbn [SearchBox.searchTerm]. by rewrite String.eqb_refl.
Qed.

Lemma suggestions_after_click_witness :
  SearchBox.suggestions
    (SearchBox.afterRender [anita; meera; karan] (SearchBox.mk "an" [anita; karan])
       (SearchBox.handleSuggestionClick (name karan)
          (SearchBox.mk "an" [anita; karan])))
  <> [].
Proof.
  apply (proj1 (proj2 (suggestions_after_click [anita; meera; karan]
                         (SearchBox.mk "an" [anita; karan]) karan
                         ltac:(right; right; by left)
                         ltac:(discriminate) ltac:(discriminate)))).
Defined.
End SearchBoxFacts.

(** ** More on state and URL *)

Module SyncMore.
Import JsString URLSearchParams.
Local Open Scope list_scope.

Lemma unsetIfEmpty_idem o : unsetIfEmpty (unsetIfEmpty o) = unsetIfEmpty o.
Proof.
  destruct o as [s|]; [|reflexivity]. simpl.
  destruct (truthy s) eqn:H; simpl; by rewrite ?H.
Qed.

Lemma buildParams_normalized st : buildParams (normalized st) = buildParams st.
Proof.
  rewrite !SyncFacts.buildParams_fields. unfold normalized, activeField.
  cbn [searchTerm selectedConsultation selectedSpecialties sortBy].
  by rewrite !unsetIfEmpty_idem.
Qed.

(** X15.  The two synchronizing effects settle: the state read back from
    the URL writes the very same URL, and reading that URL again yields
    the same state, so after one round there is nothing left to
    change. *)
Theorem url_sync_settles (st : FilterState) :
  updateUrlParams (roundTrip st) = updateUrlParams st
  /\ roundTrip (roundTrip st) = roundTrip st.
Proof.
  rewrite !SyncFacts.roundTrip_normalized. split.
  - unfold updateUrlParams. by rewrite buildParams_normalized.
  - unfold normalized.
    cbn [searchTerm selectedConsultation selectedSpecialties sortBy].
    by rewrite !unsetIfEmpty_idem.
Qed.

Lemma get_filter_known name (params : t) :
  knownParam (name, "") = true ->
  get name (List.filter knownParam params) = get name params.
Proof.
  intros Hk. induction params as [|[n v] params IH]; [reflexivity|].
  cbn [List.filter get fst].
  destruct (knownParam (n, v)) eqn:Hn; cbn [get fst].
  - by rewrite IH.
  - destruct (String.eqb_spec n name) as [->|_]; [|exact IH].
    unfold knownParam in *. cbn [fst] in *. congruence.
Qed.

Lemma getAll_filter_known name (params : t) :
  knownParam (name, "") = true ->
  getAll name (List.filter knownParam params) = getAll name params.
Proof.
  intros Hk. unfold getAll. f_equal.
  induction params as [|[n v] params IH]; [reflexivity|].
  cbn [List.filter fst].
  destruct (knownParam (n, v)) eqn:Hn; cbn [List.filter fst].
  - by rewrite IH.
  - destruct (String.eqb_spec n name) as [->|_]; [|exact IH].
    unfold knownParam in *. cbn [fst] in *. congruence.
Qed.

(** X16.  Parameters of the URL other than [search], [consultation],
    [specialty] and [sort] have no effect on the state read from it. *)
Theorem foreign_params_ignored (searchParams : URLSearchParams.t) :
  initFromUrl (List.filter knownParam searchParams) = initFromUrl searchParams.
Proof.
  unfold initFromUrl. rewrite !URLFacts.ofString_toString.
  rewrite !get_filter_known, getAll_filter_known by reflexivity.
  reflexivity.
Qed.
End SyncMore.

(** ** More on data fetching *)

Module FetchMore.
Import DataFetch.

Lemma failureMessage_truthy e : JsString.truthy (failureMessage e) = true.
Proof. reflexivity. Qed.

(** X17.  Each way the fetch can fail ends the same way: a rejected
    request, a response whose status is not a success (its body is then
    never read) and a body that cannot be parsed all store a message that
    starts with the same sentence, leave the doctors as they were and
    clear the loading flag. *)
Theorem fetch_failures (st : State) :
  (forall e, fetchData (inl e) st
             = mkState (allDoctors st) false (Some (failureMessage e)))
  /\ (forall code body,
        fetchData (inr (mkResponse false code body)) st
        = mkState (allDoctors st) false
            (Some ("Failed to load doctor data. HTTP error! status: "
                   ++ showStatus code)%string))
  /\ (forall code e,
        fetchData (inr (mkResponse true code (inl e))) st
        = mkState (allDoctors st) false (Some (failureMessage e)))
  /\ (forall e, exists rest,
        failureMessage e = ("Failed to load doctor data. " ++ rest)%string).
Proof.
  repeat split; try reflexivity.
  intros e. unfold failureMessage. eauto.
Qed.

Lemma filteredDoctors_nil st : filteredDoctors [] st = [].
Proof.
  unfold filteredDoctors.
  assert (Hf : filterStages [] st = [])
    by (apply sublist_nil_r, filterStages_sublist).
  rewrite Hf. apply Permutation_nil_r, sortStage_perm.
Qed.

(** X18.  When the fetch made on mount fails, in whichever way, the
    doctors stay the empty array they were, the pipeline has nothing to
    show under any filter state, and the list area renders the error
    banner with the stored message and nothing else: no loading line, no
    grid, no notice. *)
Theorem list_area_after_failed_fetch (outcome : FetchOutcome) (e : Thrown)
    (st : FilterState) :
  tryBlock outcome = inl e ->
  allDoctors (fetchData outcome initialState) = JArray []
  /\ filteredDoctors [] st = []
  /\ mainRegions (isLoading (fetchData outcome initialState))
       (error (fetchData outcome initialState)) (filteredDoctors [] st)
     = [ErrorBanner (failureMessage e)].
Proof.
  intros Htry. unfold fetchData. rewrite Htry.
  cbn [setIsLoading setError setAllDoctors isLoading error allDoctors
       initialState].
  split; [reflexivity|]. split; [apply filteredDoctors_nil|].
  unfold mainRegions. by rewrite failureMessage_truthy.
Qed.

Lemma list_area_after_failed_fetch_witness :
  mainRegions
    (isLoading (fetchData (inr (mkResponse false 500 (inl OtherValue)))
                  initialState))
    (error (fetchData (inr (mkResponse false 500 (inl OtherValue)))
              initialState))
    (filteredDoctors [] noFilter)
  = [ErrorBanner "Failed to load doctor data. HTTP error! status: 500"].
Proof.
  apply (proj2 (proj2 (list_area_after_failed_fetch
                  (inr (mkResponse false 500 (inl OtherValue)))
                  (ErrorObject "HTTP error! status: 500") noFilter eq_refl))).
Defined.
End FetchMore.
